(** * nodeTest: weighted request sampling, response fingerprints,
      scenario batching and metric collection

    A shallow embedding of the load-testing engine of the repository:
    - [Sampling]: the two weighted-selection loops
      ([requestWeights.generateRequestSequence] and
      [LoadTester.generateWeightedRequest]) and
      [RequestQueueGenerator.generateBatch];
    - [Fingerprint]: [CoreTester.createStructuralPattern] and
      [CoreTester.extractResponsePattern];
    - [Scenario]: [ChainLoadTester.runScenario] and [chunkArray];
    - [Metrics]: [MetricCollector] and the rate-limit check of
      [LoadTester.startWorker].

    JavaScript numbers are binary64 values.  Integer quantities (counts,
    millisecond durations, time stamps, indices) are modelled in [Z], with
    the rounding of sums beyond [2^53] written out where a sum of inputs is
    taken; draws and weights, which may be fractional, are modelled in [Q],
    where the draw [Math.random() * totalWeight] is taken exactly (its
    binary64 rounding stays within [[0, totalWeight)]). *)

From Stdlib Require Import ZArith QArith Qround Lqa Lia List Bool Ascii String
  DecimalString Permutation.
From stdpp Require Import gmap strings list fin_maps.

Import ListNotations.

(* ===================================================================== *)
(** * JavaScript values *)
(* ===================================================================== *)

(** The JSON-like in-memory values the engine handles (response bodies,
    request parameters).  An object is the list of its own enumerable
    properties in [Object.keys] order; its keys are distinct. *)
Unset Elimination Schemes.
Inductive value : Type :=
  | VUndefined
  | VNull
  | VBool (b : bool)
  | VNum (n : Q)
  | VStr (s : string)
  | VArr (elems : list value)
  | VObj (props : list (string * value)).
Set Elimination Schemes.

(* ===================================================================== *)
(** * Weighted sampling *)
(* ===================================================================== *)

Module Sampling.

Local Open Scope Q_scope.

(** [Object.entries(table)]: the (method, weight) pairs in enumeration
    order. *)
Definition weight_table := list (string * Q).

(** [requestWeights.methods] (requestPatterns.js, lines 7-19). *)
Definition methods : weight_table :=
  [ ("eth_getblockbynumber"%string, 15); ("eth_getlogs"%string, 12);
    ("eth_subscribe"%string, 11); ("eth_call"%string, 10);
    ("abci_query"%string, 10); ("sei_getlogs"%string, 8);
    ("eth_blocknumber"%string, 7); ("eth_gettransactionreceipt"%string, 7);
    ("debug_traceblockbynumber"%string, 6); ("eth_getbalance"%string, 5);
    ("other"%string, 9) ].


(** [methods.reduce((sum, [_, weight]) => sum + weight, 0)]. *)
Definition totalWeight (tbl : weight_table) : Q :=
  fold_left (fun sum (e : string * Q) => sum + snd e) tbl 0.

(** The inner loop of [generateRequestSequence]:
<<
    for (const [method, weight] of methods) {
        if (random < weight) { sequence.push(method); break; }
        random -= weight;
    }
>>
    [None] when the loop falls through without pushing. *)
Fixpoint selectMethod (tbl : weight_table) (random : Q) : option string :=
  match tbl with
  | [] => None
  | (method, weight) :: rest =>
      match random ?= weight with
      | Lt => Some method
      | _ => selectMethod rest (random - weight)
      end
  end.

(** The loop of [generateWeightedRequest]:
<<
    for (const [method, weight] of Object.entries(this.weights)) {
        random -= weight;
        if (random <= 0) return method;
    }
>>
    [None] when the loop falls through (the caller then returns
    ['other']). *)
Fixpoint weightedLoop (tbl : weight_table) (random : Q) : option string :=
  match tbl with
  | [] => None
  | (method, weight) :: rest =>
      let random' := random - weight in
      match random' ?= 0 with
      | Gt => weightedLoop rest random'
      | _ => Some method
      end
  end.

(** The random source: the successive values of [Math.random()], each in
    [[0, 1)]; the state is the number of values consumed so far. *)
Definition RandomSource := nat -> Q.

Definition in_unit_interval (rand : RandomSource) : Prop :=
  forall i, 0 <= rand i /\ rand i < 1.

(** The outer loop of [generateRequestSequence], iteration by iteration:
    one draw per iteration, [sequence.push] only when the inner loop
    selects.  Returns the sequence and the new position in the source. *)
Fixpoint sequenceLoop (tbl : weight_table) (total : Q) (rand : RandomSource)
    (pos : nat) (remaining : nat) (sequence : list string)
    : list string * nat :=
  match remaining with
  | O => (sequence, pos)
  | S remaining' =>
      let random := rand pos * total in
      let sequence' :=
        match selectMethod tbl random with
        | Some method => sequence ++ [method]
        | None => sequence
        end in
      sequenceLoop tbl total rand (S pos) remaining' sequence'
  end.

Definition generateRequestSequence (tbl : weight_table) (rand : RandomSource)
    (pos : nat) (totalRequests : nat) : list string * nat :=
  sequenceLoop tbl (totalWeight tbl) rand pos totalRequests [].

(** [generateWeightedRequest]: one draw, the loop, and the fall-back. *)
Definition generateWeightedRequest (tbl : weight_table) (rand : RandomSource)
    (pos : nat) : string * nat :=
  let total := fold_left Qplus (map snd tbl) 0 in
  let random := rand pos * total in
  (match weightedLoop tbl random with
   | Some method => method
   | None => "other"%string
   end, S pos).

(** ** [RequestQueueGenerator.generateBatch] *)

(** A request template: the HTTP method and [createParams], here as it is
    called by [generateBatch], without arguments; [now] is the value of
    [Date.now()] at the call. *)
Record template := {
  http_method : string;
  createParams : Z -> value
}.

Definition rpc_params (rpc : string) (params : list value) (now : Z) : value :=
  VObj [ ("jsonrpc"%string, VStr "2.0"); ("method"%string, VStr rpc);
         ("params"%string, VArr params); ("id"%string, VNum (inject_Z now)) ].

(** [requestWeights.templates] (requestPatterns.js, lines 42-136). *)
Definition templates : list (string * template) :=
  [ ("eth_getblockbynumber"%string,
     {| http_method := "POST";
        createParams :=
          rpc_params "eth_getBlockByNumber" [VStr "latest"; VBool true] |});
    ("eth_getlogs"%string,
     {| http_method := "POST";
        createParams :=
          rpc_params "eth_getLogs"
            [VObj [("fromBlock"%string, VStr "latest");
                   ("toBlock"%string, VStr "latest")]] |});
    ("eth_subscribe"%string,
     {| http_method := "POST";
        createParams := rpc_params "eth_subscribe" [VStr "newHeads"] |});
    ("eth_call"%string,
     {| http_method := "POST";
        createParams := rpc_params "eth_call" [VUndefined; VStr "latest"] |});
    ("abci_query"%string,
     {| http_method := "GET";
        createParams := fun _ =>
          VObj [("path"%string, VUndefined); ("data"%string, VUndefined);
                ("height"%string, VStr "0");
                ("prove"%string, VBool false)] |});
    ("sei_getlogs"%string,
     {| http_method := "GET"; createParams := fun _ => VObj [] |});
    ("eth_blocknumber"%string,
     {| http_method := "POST";
        createParams := rpc_params "eth_blockNumber" [] |});
    ("eth_gettransactionreceipt"%string,
     {| http_method := "POST";
        createParams :=
          rpc_params "eth_getTransactionReceipt" [VUndefined] |});
    ("debug_traceblockbynumber"%string,
     {| http_method := "POST";
        createParams :=
          rpc_params "debug_traceBlockByNumber" [VUndefined; VObj []] |});
    ("eth_getbalance"%string,
     {| http_method := "POST";
        createParams :=
          rpc_params "eth_getBalance" [VUndefined; VStr "latest"] |}) ].

(** [this.patterns.templates[method]]; [None] is [undefined]. *)
Fixpoint template_of (tpls : list (string * template)) (method : string)
    : option template :=
  match tpls with
  | [] => None
  | (name, t) :: rest =>
      if String.eqb name method then Some t else template_of rest method
  end.

Record descriptor := {
  d_method : string;
  d_type : string;
  d_params : value
}.

(** The callback of [sequence.map]: [null] ([None]) when the method has no
    template. *)
Definition toRequest (now : Z) (method : string) : option descriptor :=
  match template_of templates method with
  | None => None
  | Some t =>
      Some {| d_method := http_method t; d_type := method;
              d_params := createParams t now |}
  end.

(** [.filter(Boolean)] on an array of descriptors and [null]s. *)
Fixpoint filterBoolean (l : list (option descriptor)) : list descriptor :=
  match l with
  | [] => []
  | Some d :: rest => d :: filterBoolean rest
  | None :: rest => filterBoolean rest
  end.

(** [generateBatch]: [clock i] is [Date.now()] during the [i]-th callback of
    [map]. *)
Definition generateBatch (batchSize : nat) (rand : RandomSource) (pos : nat)
    (clock : nat -> Z) : list descriptor * nat :=
  let '(sequence, pos') := generateRequestSequence methods rand pos batchSize in
  (filterBoolean (imap (fun i method => toRequest (clock i) method) sequence),
   pos').

(** ** Vocabulary of the specification *)

(** Cumulative weight of the first [k] methods. *)
Fixpoint cumulative (tbl : weight_table) (k : nat) {struct k} : Q :=
  match k, tbl with
  | S k', (_, w) :: rest => w + cumulative rest k'
  | _, _ => 0
  end.

Definition method_at (tbl : weight_table) (k : nat) : option string :=
  option_map fst (nth_error tbl k).


(** "the method whose cumulative weight first strictly exceeds the draw" *)
Definition first_exceeding (tbl : weight_table) (r : Q) (k : nat) : Prop :=
  (forall j, (j < k)%nat -> cumulative tbl (S j) <= r) /\
  r < cumulative tbl (S k).

(** "subtract each method's weight in order until the remainder is
    non-positive" *)
Definition first_nonpositive (tbl : weight_table) (r : Q) (k : nat) : Prop :=
  (forall j, (j < k)%nat -> 0 < r - cumulative tbl (S j)) /\
  r - cumulative tbl (S k) <= 0.

(** ** Facts about the two selection loops *)

(** Turn a decided comparison into the order fact it stands for. *)
Ltac order_of_compare H :=
  match type of H with
  | (_ ?= _) = Eq => apply Qeq_alt in H
  | (_ ?= _) = Lt => apply Qlt_alt in H
  | (_ ?= _) = Gt => apply Qgt_alt in H
  end.

Lemma fold_sum_cumulative (tbl : weight_table) (a : Q) :
  fold_left (fun sum (e : string * Q) => sum + snd e) tbl a
  == a + cumulative tbl (length tbl).
Proof.
  revert a; induction tbl as [|[m w] rest IH]; intros a; simpl.
  - lra.
  - rewrite IH; simpl; lra.
Qed.

Lemma totalWeight_cumulative (tbl : weight_table) :
  totalWeight tbl == cumulative tbl (length tbl).
Proof. unfold totalWeight; rewrite fold_sum_cumulative; lra. Qed.

Lemma fold_values_entries (tbl : weight_table) (a : Q) :
  fold_left Qplus (map snd tbl) a
  = fold_left (fun sum (e : string * Q) => sum + snd e) tbl a.
Proof.
  revert a; induction tbl as [|e rest IH]; intros a; simpl; [reflexivity|].
  apply IH.
Qed.

Lemma selectMethod_first_exceeding (tbl : weight_table) (r : Q) :
  0 <= r -> r < cumulative tbl (length tbl) ->
  exists k m, selectMethod tbl r = Some m /\ method_at tbl k = Some m /\
              first_exceeding tbl r k.
Proof.
  revert r; induction tbl as [|[m w] rest IH]; intros r Hr Hlt; simpl in *.
  - lra.
  - destruct (r ?= w) eqn:E.
    + order_of_compare E.
      destruct (IH (r - w)) as (k & m' & Hsel & Hat & Hfirst & Hlast);
        [lra | lra |].
      exists (S k), m'; repeat split; auto.
      * intros [|j] Hj; simpl; [lra|].
        specialize (Hfirst j ltac:(lia)); simpl in Hfirst; lra.
      * simpl in *; lra.
    + order_of_compare E.
      exists O, m; repeat split; auto.
      * intros j Hj; lia.
      * simpl; lra.
    + order_of_compare E.
      destruct (IH (r - w)) as (k & m' & Hsel & Hat & Hfirst & Hlast);
        [lra | lra |].
      exists (S k), m'; repeat split; auto.
      * intros [|j] Hj; simpl; [lra|].
        specialize (Hfirst j ltac:(lia)); simpl in Hfirst; lra.
      * simpl in *; lra.
Qed.

Lemma weightedLoop_first_nonpositive (tbl : weight_table) (r : Q) :
  r <= cumulative tbl (length tbl) -> tbl <> [] ->
  exists k m, weightedLoop tbl r = Some m /\ method_at tbl k = Some m /\
              first_nonpositive tbl r k.
Proof.
  revert r; induction tbl as [|[m w] rest IH]; intros r Hle Hne; simpl in *.
  - congruence.
  - destruct (r - w ?= 0) eqn:E.
    + order_of_compare E.
      exists O, m; repeat split; auto.
      * intros j Hj; lia.
      * simpl; lra.
    + order_of_compare E.
      exists O, m; repeat split; auto.
      * intros j Hj; lia.
      * simpl; lra.
    + order_of_compare E.
      destruct rest as [|e rest'].
      { simpl in Hle; lra. }
      destruct (IH (r - w)) as (k & m' & Hsel & Hat & Hfirst & Hlast);
        [lra | congruence |].
      exists (S k), m'; repeat split; auto.
      * intros [|j] Hj; [simpl; lra|].
        specialize (Hfirst j ltac:(lia)).
        change (cumulative ((m, w) :: e :: rest') (S (S j)))
          with (w + cumulative (e :: rest') (S j)).
        lra.
      * change (cumulative ((m, w) :: e :: rest') (S (S k)))
          with (w + cumulative (e :: rest') (S k)).
        lra.
Qed.


Lemma draw_in_range_nonempty (tbl : weight_table) (r : Q) :
  0 <= r -> r < totalWeight tbl -> tbl <> [].
Proof.
  intros Hr Hlt ->; unfold totalWeight in Hlt; simpl in Hlt; lra.
Qed.

(** Within the range of the draw the fall-back ['other'] of
    [generateWeightedRequest] is not reached: the method returned is the
    one its loop selects. *)
Lemma generateWeightedRequest_loop (tbl : weight_table)
    (rand : RandomSource) (pos : nat) :
  0 < totalWeight tbl -> in_unit_interval rand ->
  exists m,
    weightedLoop tbl (rand pos * totalWeight tbl) = Some m /\
    generateWeightedRequest tbl rand pos = (m, S pos).
Proof.
  intros Ht Hrand; destruct (Hrand pos) as [H0 H1].
  assert (Hr : 0 <= rand pos * totalWeight tbl
               /\ rand pos * totalWeight tbl < totalWeight tbl)
    by (split; nra).
  destruct Hr as [Hr0 Hr1].
  pose proof (draw_in_range_nonempty tbl _ Hr0 Hr1) as Hne.
  rewrite totalWeight_cumulative in Hr1 at 2.
  assert (Hle : rand pos * totalWeight tbl <= cumulative tbl (length tbl))
    by lra.
  destruct (weightedLoop_first_nonpositive tbl _ Hle Hne)
    as (k & m & Hsel & _).
  exists m; split; [exact Hsel|].
  unfold generateWeightedRequest; rewrite fold_values_entries.
  fold (totalWeight tbl); rewrite Hsel; reflexivity.
Qed.




(** ** The sequence generator as a function of the random source *)

(** The methods selected for the draws at the given positions. *)
Definition picks (tbl : weight_table) (total : Q) (rand : RandomSource)
    (positions : list nat) : list string :=
  omap (fun i => selectMethod tbl (rand i * total)) positions.

Lemma picks_cons (tbl : weight_table) (total : Q) (rand : RandomSource)
    (i : nat) (rest : list nat) :
  picks tbl total rand (i :: rest)
  = match selectMethod tbl (rand i * total) with
    | Some m => m :: picks tbl total rand rest
    | None => picks tbl total rand rest
    end.
Proof. reflexivity. Qed.

Lemma sequenceLoop_picks (tbl : weight_table) (total : Q)
    (rand : RandomSource) (n pos : nat) (acc : list string) :
  sequenceLoop tbl total rand pos n acc
  = (acc ++ picks tbl total rand (seq pos n), (pos + n)%nat).
Proof.
  revert pos acc; induction n as [|n IH]; intros pos acc.
  - simpl; rewrite app_nil_r, Nat.add_0_r; reflexivity.
  - cbn [sequenceLoop seq]; rewrite IH, picks_cons.
    f_equal; [|lia].
    destruct (selectMethod tbl (rand pos * total)).
    + rewrite <- app_assoc; reflexivity.
    + reflexivity.
Qed.


Lemma selectMethod_In (tbl : weight_table) (r : Q) (m : string) :
  selectMethod tbl r = Some m -> In m (map fst tbl).
Proof.
  revert r; induction tbl as [|[m' w] rest IH]; intros r; simpl.
  - discriminate.
  - destruct (r ?= w); intros H;
      try (right; apply (IH _ H)).
    left; congruence.
Qed.

Lemma scaled_draw_in_range (x total : Q) :
  0 < total -> 0 <= x -> x < 1 -> 0 <= x * total /\ x * total < total.
Proof. intros Ht H0 H1; split; nra. Qed.

Lemma picks_length (tbl : weight_table) (rand : RandomSource)
    (positions : list nat) :
  0 < totalWeight tbl -> in_unit_interval rand ->
  length (picks tbl (totalWeight tbl) rand positions) = length positions /\
  Forall (fun m => In m (map fst tbl))
         (picks tbl (totalWeight tbl) rand positions).
Proof.
  intros Ht Hrand; induction positions as [|i rest [IHl IHf]].
  - split; [reflexivity | constructor].
  - destruct (Hrand i) as [H0 H1].
    destruct (scaled_draw_in_range _ _ Ht H0 H1) as [Hr0 Hr1].
    rewrite totalWeight_cumulative in Hr1 at 2.
    destruct (selectMethod_first_exceeding tbl _ Hr0 Hr1)
      as (k & m & Hsel & _).
    rewrite picks_cons, Hsel; simpl; split.
    + f_equal; exact IHl.
    + constructor; [eapply selectMethod_In; eassumption | exact IHf].
Qed.

Lemma generateRequestSequence_picks (tbl : weight_table)
    (rand : RandomSource) (pos n : nat) :
  generateRequestSequence tbl rand pos n
  = (picks tbl (totalWeight tbl) rand (seq pos n), (pos + n)%nat).
Proof. unfold generateRequestSequence; apply sequenceLoop_picks. Qed.



Lemma toRequest_cases (now : Z) (m : string) :
  In m (map fst methods) ->
  (String.eqb "other" m = true /\ toRequest now m = None) \/
  (String.eqb "other" m = false /\ exists d, toRequest now m = Some d).
Proof.
  intros H; simpl in H.
  repeat (destruct H as [<-|H];
          [first [ left; split; reflexivity
                 | right; split; [reflexivity | eexists; reflexivity] ]|]).
  contradiction.
Qed.

Lemma filterBoolean_length (clock : nat -> Z) (sequence : list string) :
  Forall (fun m => In m (map fst methods)) sequence ->
  (length (filterBoolean
             (imap (fun i method => toRequest (clock i) method) sequence))
   + length (List.filter (String.eqb "other") sequence)
   = length sequence)%nat.
Proof.
  intros Hall; revert clock; induction Hall as [|m rest Hm _ IH];
    intros clock; [reflexivity|].
  cbn [imap List.filter].
  specialize (IH (fun i => clock (S i))).
  destruct (toRequest_cases (clock O) m Hm) as [[-> ->]|[-> [d ->]]];
    cbn [filterBoolean length]; unfold compose; lia.
Qed.

(** C8, as amended.  [generateBatch] draws exactly [b] methods and returns
    one descriptor for each drawn method that has a template; ['other']
    (weight 9) has no template, so the batch holds [b] descriptors less the
    number of draws of ['other'], hence at most [b]. *)
Theorem generateBatch_length (b : nat) (rand : RandomSource) (pos : nat)
    (clock : nat -> Z) :
  in_unit_interval rand ->
  let sequence := fst (generateRequestSequence methods rand pos b) in
  let batch := fst (generateBatch b rand pos clock) in
  length sequence = b /\
  template_of templates "other" = None /\
  (length batch + length (List.filter (String.eqb "other") sequence) = b)%nat
  /\ (length batch <= b)%nat.
Proof.
  intros Hrand; cbv zeta; unfold generateBatch.
  rewrite generateRequestSequence_picks; cbn [fst].
  destruct (picks_length methods rand (seq pos b)
              ltac:(vm_compute; reflexivity) Hrand) as [Hlen Hall].
  rewrite length_seq in Hlen.
  pose proof (filterBoolean_length clock _ Hall) as Hb.
  rewrite Hlen in Hb.
  repeat split; [exact Hlen | exact Hb | lia].
Qed.

Lemma generateBatch_length_witness :
  let rand : RandomSource := fun i => if (i =? 1)%nat then 19 # 20 else 1 # 4 in
  in_unit_interval rand /\
  (length (fst (generateBatch 3 rand 0 (fun _ => 0%Z)))
   + length (List.filter (String.eqb "other")
               (fst (generateRequestSequence methods rand 0 3)))
   = 3)%nat.
Proof.
  intros rand.
  assert (H : in_unit_interval rand).
  { intros i; unfold rand; destruct (i =? 1)%nat;
      split; unfold Qle, Qlt; simpl; lia. }
  split; [exact H|].
  pose proof (generateBatch_length 3 rand 0 (fun _ => 0%Z) H)
    as (_ & _ & Hb & _).
  exact Hb.
Defined.

(** A draw that falls on ['other'] yields no descriptor: with
    [Math.random() = 0.95] a batch of size 1 comes back empty. *)
Lemma other_draw_shrinks_batch :
  ~ (forall (b : nat) (rand : RandomSource) (pos : nat) (clock : nat -> Z),
       in_unit_interval rand ->
       length (fst (generateBatch b rand pos clock)) = b).
Proof.
  intros H.
  specialize (H 1%nat (fun _ => 95 # 100) O (fun _ => 0%Z)).
  assert (Hrand : in_unit_interval (fun _ => 95 # 100)).
  { intros i; split; unfold Qle, Qlt; simpl; lia. }
  specialize (H Hrand); vm_compute in H; discriminate.
Qed.

End Sampling.

(* ===================================================================== *)
(** * Response fingerprints *)
(* ===================================================================== *)

Module Fingerprint.

Local Open Scope Z_scope.

(** The value built by [createStructuralPattern]: a tag string, a
    one-element array, or an object of patterns. *)
Unset Elimination Schemes.
Inductive pattern : Type :=
  | PTag (tag : string)
  | PArr (first : pattern)
  | PObj (props : list (string * pattern)).
Set Elimination Schemes.

(** [createStructuralPattern(data, depth = 0)] (lines 190-211).  The tests
    are in the order of the source: the depth guard, [Array.isArray],
    [null], then [typeof]. *)
Fixpoint createStructuralPattern (data : value) (depth : Z) : pattern :=
  if 3 <? depth then PTag "MAX_DEPTH"
  else
    match data with
    | VArr [] => PTag "EMPTY_ARRAY"
    | VArr (first :: _) => PArr (createStructuralPattern first (depth + 1))
    | VNull => PTag "NULL"
    | VObj props =>
        PObj (map (fun kv : string * value =>
                     let (key, v) := kv in
                     (key, createStructuralPattern v (depth + 1)))
                  props)
    | VStr _ => PTag "STRING"
    | VNum _ => PTag "NUMBER"
    | VBool _ => PTag "BOOLEAN"
    | VUndefined => PTag "undefined"
    end.

(** ** [JSON.stringify] on patterns *)

Definition dquote : ascii := ascii_of_nat 34.
Definition backslash : ascii := ascii_of_nat 92.

Definition hex_digit (n : nat) : ascii :=
  if (n <? 10)%nat then ascii_of_nat (48 + n) else ascii_of_nat (87 + n).

(** One character of a quoted JSON string. *)
Definition escape_char (c : ascii) : string :=
  let n := nat_of_ascii c in
  if (n =? 34)%nat then String backslash (String dquote EmptyString)
  else if (n =? 92)%nat then String backslash (String backslash EmptyString)
  else if (n =? 8)%nat then String backslash "b"
  else if (n =? 12)%nat then String backslash "f"
  else if (n =? 10)%nat then String backslash "n"
  else if (n =? 13)%nat then String backslash "r"
  else if (n =? 9)%nat then String backslash "t"
  else if (n <? 32)%nat then
    String backslash
      ("u00" +:+ String (hex_digit (n / 16))
                   (String (hex_digit (n mod 16)) EmptyString))
  else String c EmptyString.

Fixpoint escape (s : string) : string :=
  match s with
  | EmptyString => EmptyString
  | String c rest => escape_char c +:+ escape rest
  end.

Definition quote (s : string) : string :=
  String dquote (escape s +:+ String dquote EmptyString).

Fixpoint join (sep : string) (parts : list string) : string :=
  match parts with
  | [] => EmptyString
  | [p] => p
  | p :: rest => p +:+ sep +:+ join sep rest
  end.

Fixpoint stringify (p : pattern) : string :=
  match p with
  | PTag tag => quote tag
  | PArr first => "[" +:+ stringify first +:+ "]"
  | PObj props =>
      "{" +:+ join ","
                (map (fun kp : string * pattern =>
                        let (key, q) := kp in
                        quote key +:+ ":" +:+ stringify q)
                     props)
          +:+ "}"
  end.

(** [extractResponsePattern(data)] (lines 184-188). *)
Definition extractResponsePattern (data : value) : string :=
  stringify (createStructuralPattern data 0).

(** ** Vocabulary of the specification *)

(** Number of nesting levels of a value: 0 for a primitive. *)
Fixpoint nesting (v : value) : nat :=
  match v with
  | VArr elems => S (fold_right (fun e acc => Nat.max (nesting e) acc) O elems)
  | VObj props =>
      S (fold_right (fun kv acc => Nat.max (nesting (snd kv)) acc) O props)
  | _ => O
  end.

(** [same_prefix n x y]: [x] and [y] are identical on their top [n]
    levels (depths [0 .. n-1]); below, they are unrelated. *)
Fixpoint same_prefix (n : nat) (x y : value) : Prop :=
  match n with
  | O => True
  | S n' =>
      match x, y with
      | VUndefined, VUndefined => True
      | VNull, VNull => True
      | VBool a, VBool b => a = b
      | VNum a, VNum b => a = b
      | VStr a, VStr b => a = b
      | VArr xs, VArr ys => Forall2 (same_prefix n') xs ys
      | VObj ps, VObj qs =>
          Forall2 (fun p q : string * value =>
                     fst p = fst q /\ same_prefix n' (snd p) (snd q)) ps qs
      | _, _ => False
      end
  end.

(** [same_shape n x y]: on their top [n] levels, [x] and [y] have the same
    keys in the same order, the same nesting, and primitives of the same
    type; the primitive values themselves may differ. *)
Fixpoint same_shape (n : nat) (x y : value) : Prop :=
  match n with
  | O => True
  | S n' =>
      match x, y with
      | VUndefined, VUndefined => True
      | VNull, VNull => True
      | VBool _, VBool _ => True
      | VNum _, VNum _ => True
      | VStr _, VStr _ => True
      | VArr xs, VArr ys => Forall2 (same_shape n') xs ys
      | VObj ps, VObj qs =>
          Forall2 (fun p q : string * value =>
                     fst p = fst q /\ same_shape n' (snd p) (snd q)) ps qs
      | _, _ => False
      end
  end.

(** ** Facts *)

Lemma createStructuralPattern_unfold (data : value) (depth : Z) :
  createStructuralPattern data depth
  = if 3 <? depth then PTag "MAX_DEPTH"
    else
      match data with
      | VArr [] => PTag "EMPTY_ARRAY"
      | VArr (first :: _) => PArr (createStructuralPattern first (depth + 1))
      | VNull => PTag "NULL"
      | VObj props =>
          PObj (map (fun kv : string * value =>
                       let (key, v) := kv in
                       (key, createStructuralPattern v (depth + 1)))
                    props)
      | VStr _ => PTag "STRING"
      | VNum _ => PTag "NUMBER"
      | VBool _ => PTag "BOOLEAN"
      | VUndefined => PTag "undefined"
      end.
Proof. destruct data; reflexivity. Qed.

Lemma beyond_bound_collapses (data : value) (depth : Z) :
  3 < depth -> createStructuralPattern data depth = PTag "MAX_DEPTH".
Proof.
  intros H; rewrite createStructuralPattern_unfold.
  apply Z.ltb_lt in H; rewrite H; reflexivity.
Qed.

Lemma same_prefix_shape (n : nat) (x y : value) :
  same_prefix n x y -> same_shape n x y.
Proof.
  revert x y; induction n as [|n IH]; intros x y; [trivial|].
  destruct x, y; simpl; trivial.
  - intros H; induction H; constructor; auto.
  - intros H; induction H as [|p q ps qs [Hk Hv] _ IHF]; constructor; auto.
Qed.

(** Values of the same shape on the levels that remain above the bound have
    the same structural pattern. *)
Lemma same_shape_pattern (n : nat) (x y : value) (depth : Z) :
  4 <= depth + Z.of_nat n -> same_shape n x y ->
  createStructuralPattern x depth = createStructuralPattern y depth.
Proof.
  revert x y depth; induction n as [|n IH]; intros x y depth Hd Hs.
  - rewrite !beyond_bound_collapses by lia; reflexivity.
  - rewrite (createStructuralPattern_unfold x),
      (createStructuralPattern_unfold y).
    destruct (3 <? depth); [reflexivity|].
    destruct x, y; simpl in Hs; try contradiction; try reflexivity.
    + destruct Hs as [|x y xs ys Hxy _]; [reflexivity|].
      f_equal; apply IH; [lia | exact Hxy].
    + f_equal.
      induction Hs as [|[k v] [k' v'] ps qs [Hk Hv] _ IHF]; [reflexivity|].
      simpl in Hk, Hv; subst k'; simpl; f_equal; [|exact IHF].
      f_equal; apply IH; [lia | exact Hv].
Qed.

(** ** Example values *)

Definition chain (keys : list string) (leaf : value) : value :=
  fold_right (fun key inner => VObj [(key, inner)]) leaf keys.

(** [{a:{b:{c:1}}}], [{a:{b:{c:{d:1}}}}], [{a:{b:{c:{d:{e:1}}}}}] and
    [{a:{b:{c:{d:{e:{f:1}}}}}}]. *)
Definition nested3 : value := chain ["a"; "b"; "c"]%string (VNum 1).
Definition nested4 : value := chain ["a"; "b"; "c"; "d"]%string (VNum 1).
Definition nested5 : value := chain ["a"; "b"; "c"; "d"; "e"]%string (VNum 1).
Definition nested6 : value :=
  chain ["a"; "b"; "c"; "d"; "e"; "f"]%string (VNum 1).

(** [{id: 7, tags: ["x"], ok: true, inner: {v: null}}] and the same shape
    with other primitive values. *)
Definition response1 : value :=
  VObj [("id"%string, VNum 7); ("tags"%string, VArr [VStr "x"]);
        ("ok"%string, VBool true);
        ("inner"%string, VObj [("v"%string, VNull)])].
Definition response2 : value :=
  VObj [("id"%string, VNum 8); ("tags"%string, VArr [VStr "y"]);
        ("ok"%string, VBool false);
        ("inner"%string, VObj [("v"%string, VNull)])].

(** ** The depth bound and the shape property *)

(** C2, as amended.  The fingerprint is bounded at depth 3 counted from 0
    at the root, so four levels are expanded: every subtree at a depth
    greater than 3 collapses to ['MAX_DEPTH'] whatever it contains, and two
    values that are identical on their top four levels have exactly the
    same signature, however much deeper either of them is nested. *)
Theorem fingerprint_depth_bound :
  (forall (data : value) (depth : Z),
      3 < depth -> createStructuralPattern data depth = PTag "MAX_DEPTH") /\
  (forall x y : value,
      same_prefix 4 x y ->
      extractResponsePattern x = extractResponsePattern y).
Proof.
  split.
  - apply beyond_bound_collapses.
  - intros x y H; unfold extractResponsePattern; f_equal.
    apply (same_shape_pattern 4); [lia | apply same_prefix_shape, H].
Qed.

Lemma fingerprint_depth_bound_witness :
  nesting nested6 = 6%nat /\ nesting nested4 = 4%nat /\
  same_prefix 4 nested6 nested4 /\
  extractResponsePattern nested6 = extractResponsePattern nested4.
Proof.
  assert (H : same_prefix 4 nested6 nested4).
  { simpl; repeat constructor. }
  split; [reflexivity|]; split; [reflexivity|]; split; [exact H|].
  exact (proj2 fingerprint_depth_bound nested6 nested4 H).
Defined.

(** The bound is not at three levels: a value nested 5 levels deep and a
    value nested 3 levels deep that share their top three levels have
    different signatures. *)
Lemma three_levels_do_not_determine_fingerprint :
  ~ (forall x y : value,
       nesting x = 5%nat -> nesting y = 3%nat -> same_prefix 3 x y ->
       extractResponsePattern x = extractResponsePattern y).
Proof.
  intros H.
  assert (Hp : same_prefix 3 nested5 nested3).
  { simpl; repeat constructor. }
  specialize (H nested5 nested3 eq_refl eq_refl Hp).
  vm_compute in H; discriminate.
Qed.

(** C3.  Two values with the same keys in the same order, the same nesting
    and the same primitive types down to depth 3 have the same
    fingerprint, whatever their primitive values; within the bound an
    array is represented by the one-element array of its first element's
    pattern (['EMPTY_ARRAY'] if empty), [null] by ['NULL'], and a
    primitive by its type tag. *)
Theorem fingerprint_same_shape :
  (forall x y : value,
      same_shape 4 x y ->
      extractResponsePattern x = extractResponsePattern y) /\
  (forall depth : Z,
      depth <= 3 ->
      createStructuralPattern (VArr []) depth = PTag "EMPTY_ARRAY" /\
      (forall first rest,
          createStructuralPattern (VArr (first :: rest)) depth
          = PArr (createStructuralPattern first (depth + 1))) /\
      createStructuralPattern VNull depth = PTag "NULL" /\
      (forall s, createStructuralPattern (VStr s) depth = PTag "STRING") /\
      (forall n, createStructuralPattern (VNum n) depth = PTag "NUMBER") /\
      (forall b, createStructuralPattern (VBool b) depth = PTag "BOOLEAN")).
Proof.
  split.
  - intros x y H; unfold extractResponsePattern; f_equal.
    apply (same_shape_pattern 4); [lia | exact H].
  - intros depth Hd.
    assert (Hb : (3 <? depth) = false) by (apply Z.ltb_ge; exact Hd).
    repeat split; intros; rewrite createStructuralPattern_unfold, Hb;
      reflexivity.
Qed.

Lemma fingerprint_same_shape_witness :
  same_shape 4 response1 response2 /\ response1 <> response2 /\
  extractResponsePattern response1 = extractResponsePattern response2 /\
  createStructuralPattern (VArr [VNum 1; VStr "a"]) 3
  = PArr (createStructuralPattern (VNum 1) 4).
Proof.
  assert (H : same_shape 4 response1 response2).
  { simpl; repeat constructor. }
  assert (Hd : 3 <= 3) by lia.
  split; [exact H|]; split; [discriminate|]; split.
  - exact (proj1 fingerprint_same_shape response1 response2 H).
  - exact (proj1 (proj2 (proj2 fingerprint_same_shape 3 Hd)) _ _).
Defined.

End Fingerprint.

(* ===================================================================== *)
(** * Scenario execution *)
(* ===================================================================== *)

Module Scenario.

Local Open Scope Z_scope.

(** A query of a scenario: [{endpoint, method, data, params}]. *)
Record query := {
  endpoint : string;
  method : string;
  data : option value;
  params : option value
}.

Record scenario := {
  name : string;
  weight : Q;
  queries : list query
}.

(** [Array.prototype.slice(start, end)] on integral bounds: negative bounds
    count from the end, bounds are clamped to the array, and an empty
    range gives the empty array. *)
Definition slice {A : Type} (array : list A) (start stop : Z) : list A :=
  let len := Z.of_nat (length array) in
  let k := if start <? 0 then Z.max (len + start) 0 else Z.min start len in
  let final := if stop <? 0 then Z.max (len + stop) 0 else Z.min stop len in
  firstn (Z.to_nat (final - k)) (skipn (Z.to_nat k) array).

(** The loop of [chunkArray] (lines 554-560):
<<
    for (let i = 0; i < array.length; i += size)
        chunks.push(array.slice(i, i + size));
>>
    [fuel] bounds the number of iterations; [None] when it runs out. *)
Fixpoint chunkLoop {A : Type} (fuel : nat) (array : list A) (size i : Z)
    (chunks : list (list A)) : option (list (list A)) :=
  if i <? Z.of_nat (length array) then
    match fuel with
    | O => None
    | S fuel' =>
        chunkLoop fuel' array size (i + size)
                  (chunks ++ [slice array i (i + size)])
    end
  else Some chunks.

Definition chunkArray {A : Type} (fuel : nat) (array : list A) (size : Z)
    : option (list (list A)) :=
  chunkLoop fuel array size 0 [].

(** What the executor does, in order: start a request, or wait for all the
    requests started since the last wait ([await Promise.all]). *)
Inductive event : Type :=
  | Start (q : query)
  | AwaitAll.

Inductive completion : Type :=
  | Fulfilled
  | Rejected.

(** The loop over the batches (lines 462-465).  [batch.map] starts every
    request of the batch; [await Promise.all(promises)] then waits for them
    and throws when one of them was rejected, which ends the scenario.
    [ok i] tells whether the [i]-th request started by the scenario
    succeeds; [started] counts the requests started so far. *)
Fixpoint runBatches (ok : nat -> bool) (started : nat)
    (batches : list (list query)) (trace : list event)
    : list event * completion :=
  match batches with
  | [] => (trace, Fulfilled)
  | batch :: rest =>
      let results := map ok (seq started (length batch)) in
      let trace' := trace ++ map Start batch ++ [AwaitAll] in
      if forallb (fun r => r) results
      then runBatches ok (started + length batch) rest trace'
      else (trace', Rejected)
  end.

(** [runScenario(scenario)] (lines 455-466): the concurrency is
    [Math.ceil(this.config.initialConcurrency * scenario.weight)], the batch
    size [Math.min(scenario.queries.length, concurrency)].  [None] when
    [chunkArray] does not return within [fuel] iterations. *)
Definition runScenario (fuel : nat) (initialConcurrency : Q) (s : scenario)
    (ok : nat -> bool) : option (list event * completion) :=
  let concurrency := Qceiling (initialConcurrency * weight s) in
  let batchSize := Z.min (Z.of_nat (length (queries s))) concurrency in
  match chunkArray fuel (queries s) batchSize with
  | None => None
  | Some batches => Some (runBatches ok 0 batches [])
  end.

(** The events of a list of batches issued one after the other. *)
Definition issue (batches : list (list query)) : list event :=
  concat (map (fun batch => map Start batch ++ [AwaitAll]) batches).

(** ** Facts about [slice] and [chunkArray] *)

Lemma slice_window {A : Type} (array : list A) (i size : Z) :
  0 <= i <= Z.of_nat (length array) -> 0 <= size ->
  slice array i (i + size)
  = firstn (Z.to_nat size) (skipn (Z.to_nat i) array).
Proof.
  intros Hi Hs; unfold slice.
  destruct (Z.ltb_spec i 0) as [?|_]; [lia|].
  destruct (Z.ltb_spec (i + size) 0) as [?|_]; [lia|].
  rewrite (Z.min_l i) by lia.
  destruct (Z.le_ge_cases (i + size) (Z.of_nat (length array))) as [Hin|Hout].
  - rewrite Z.min_l by lia; f_equal; f_equal; lia.
  - rewrite Z.min_r by lia.
    rewrite !firstn_all2; [reflexivity| |]; rewrite length_skipn; lia.
Qed.

Lemma chunkLoop_spec {A : Type} (array : list A) (size : Z) :
  0 < size ->
  forall (fuel : nat) (i : Z) (chunks : list (list A)),
    0 <= i -> Z.of_nat (length array) - i <= Z.of_nat fuel ->
    exists rest,
      chunkLoop fuel array size i chunks = Some (chunks ++ rest) /\
      concat rest = skipn (Z.to_nat i) array /\
      Forall (fun b => 0 < Z.of_nat (length b) <= size) rest /\
      Forall (fun b => Z.of_nat (length b) = size) (removelast rest) /\
      (Z.of_nat (length array) <= i -> rest = []).
Proof.
  intros Hsize; induction fuel as [|fuel IH]; intros i chunks Hi Hfuel.
  - exists []; cbn [chunkLoop].
    destruct (Z.ltb_spec i (Z.of_nat (length array))) as [?|Hge]; [lia|].
    rewrite app_nil_r, skipn_all2 by lia; repeat split; constructor.
  - cbn [chunkLoop].
    destruct (Z.ltb_spec i (Z.of_nat (length array))) as [Hlt|Hge].
    + destruct (IH (i + size) (chunks ++ [slice array i (i + size)]))
        as (rest & Hrun & Hcat & Hall & Hfull & Hend); [lia | lia |].
      exists (slice array i (i + size) :: rest).
      rewrite slice_window in * by lia.
      split; [rewrite Hrun, <- app_assoc; reflexivity|].
      split; [|split; [|split]].
      * cbn [concat]; rewrite Hcat.
        replace (Z.to_nat (i + size)) with (Z.to_nat size + Z.to_nat i)%nat
          by lia.
        rewrite <- skipn_skipn; apply firstn_skipn.
      * constructor; [|exact Hall].
        rewrite length_firstn, length_skipn; lia.
      * destruct rest as [|r rest']; [constructor|].
        change (Forall (fun b => Z.of_nat (length b) = size)
                  (firstn (Z.to_nat size) (skipn (Z.to_nat i) array)
                   :: removelast (r :: rest'))).
        constructor; [|exact Hfull].
        destruct (Z.le_gt_cases (Z.of_nat (length array)) (i + size))
          as [Hout|Hin]; [specialize (Hend Hout); discriminate|].
        rewrite length_firstn, length_skipn; lia.
      * intros; lia.
    + exists []; rewrite app_nil_r, skipn_all2 by lia.
      repeat split; constructor.
Qed.

(** With a size that is not positive, the loop never leaves a non-empty
    array: no amount of fuel suffices. *)
Lemma chunkLoop_stuck {A : Type} (array : list A) (size : Z) :
  size <= 0 ->
  forall (fuel : nat) (i : Z) (chunks : list (list A)),
    i < Z.of_nat (length array) -> chunkLoop fuel array size i chunks = None.
Proof.
  intros Hsize; induction fuel as [|fuel IH]; intros i chunks Hi;
    cbn [chunkLoop];
    destruct (Z.ltb_spec i (Z.of_nat (length array))); try lia.
  - reflexivity.
  - apply IH; lia.
Qed.

Lemma chunkArray_spec {A : Type} (array : list A) (size : Z) (fuel : nat) :
  0 < size -> (length array <= fuel)%nat ->
  exists batches,
    chunkArray fuel array size = Some batches /\
    concat batches = array /\
    Forall (fun b => 0 < Z.of_nat (length b) <= size) batches /\
    Forall (fun b => Z.of_nat (length b) = size) (removelast batches).
Proof.
  intros Hsize Hfuel.
  destruct (chunkLoop_spec array size Hsize fuel 0 []) as
    (rest & Hrun & Hcat & Hall & Hfull & _); [lia | lia |].
  exists rest; repeat split; assumption.
Qed.

(** ** Facts about the batch loop *)



Lemma ceiling_positive (x : Q) : (0 < x)%Q -> 0 < Qceiling x.
Proof.
  intros Hx; pose proof (Qle_ceiling x) as Hc.
  rewrite Zlt_Qlt; change (inject_Z 0) with 0%Q; lra.
Qed.


(** A [block-queries] scenario (weight 2) over four known blocks, run at
    [initialConcurrency = 1]. *)
Definition get (path : string) : query :=
  {| endpoint := path; method := "GET"; data := None; params := None |}.

Definition fourQueries : scenario :=
  {| name := "block-queries"; weight := 2;
     queries := [get "/blocks/1"; get "/blocks/2";
                 get "/blocks/3"; get "/blocks/4"] |}.


(** When the first request is rejected, [await Promise.all] throws after
    the first batch and the second batch is never started. *)
Lemma rejection_ends_scenario :
  runScenario 4 1 fourQueries (fun i => negb (i =? 0)%nat)
  = Some (issue [[get "/blocks/1"; get "/blocks/2"]], Rejected).
Proof. reflexivity. Qed.

(** Outside the precondition: with an effective concurrency that is not
    positive and a non-empty request list, [chunkArray] is called with a
    size that is not positive and does not return. *)
Lemma runScenario_needs_positive_concurrency (fuel : nat)
    (initialConcurrency : Q) (s : scenario) (ok : nat -> bool) :
  Qceiling (initialConcurrency * weight s) <= 0 -> queries s <> [] ->
  runScenario fuel initialConcurrency s ok = None.
Proof.
  intros Hc Hq; unfold runScenario, chunkArray.
  rewrite chunkLoop_stuck; [reflexivity | lia |].
  destruct (queries s); [congruence | cbn [length]; lia].
Qed.

End Scenario.

(* ===================================================================== *)
(** * Metric collection *)
(* ===================================================================== *)

Module Metrics.

Local Open Scope Z_scope.

(** ** Numbers *)

(** Binary64 rounding of an integer (round to nearest, ties to even):
    integers up to [2^53] in absolute value are exact, larger ones keep 53
    significant bits. *)
Definition round53 (z : Z) : Z :=
  if Z.abs z <=? 2 ^ 53 then z
  else
    let u := 2 ^ (Z.log2 (Z.abs z) - 52) in
    let q := z / u in
    let r := z mod u in
    if 2 * r <? u then q * u
    else if u <? 2 * r then (q + 1) * u
    else if Z.even q then q * u else (q + 1) * u.

(** [a + b] on integer-valued numbers. *)
Definition js_add (a b : Z) : Z := round53 (a + b).

(** [latencies.reduce((a, b) => a + b, 0)]. *)
Definition sumLatencies (latencies : list Z) : Z :=
  fold_left js_add latencies 0.

(** [Math.round]: the nearest integer, ties towards positive infinity. *)
Definition Math_round (x : Q) : Z := Qfloor (x + (1 # 2)).

(** [value || 0] on the result of [Map.get] ([None] is [undefined]). *)
Definition or0 (v : option Z) : Z :=
  match v with
  | Some n => if n =? 0 then 0 else n
  | None => 0
  end.

(** ** The collector *)

Record rateLimitInfo := {
  hits : Z;
  rl_timestamps : list Z
}.

(** [this.metrics].  A [Map] is modelled by a finite map; its insertion
    order only shows in the key order of the objects built from it. *)
Record metrics := {
  requestCounts : gmap string Z;
  latencies : gmap string (list Z);
  errors : gmap string Z;
  timestamps : gmap string (list Z);
  rateLimit : rateLimitInfo
}.

(** The state set up by the constructor. *)
Definition initial : metrics :=
  {| requestCounts := ∅; latencies := ∅; errors := ∅; timestamps := ∅;
     rateLimit := {| hits := 0; rl_timestamps := [] |} |}.

(** The [data] argument of [recordRequest], destructured as
    [{ duration, success, error, rateLimited }]; [error] is not used.  A
    missing [success] or [rateLimited] is falsy. *)
Record requestData := {
  duration : Z;
  success : bool;
  rateLimited : bool
}.

(** [incrementMapValue(map, key)]: [map.set(key, (map.get(key) || 0) + 1)]. *)
Definition incrementMapValue (map : gmap string Z) (key : string)
    : gmap string Z :=
  <[key := or0 (map !! key) + 1]> map.

(** [if (!map.has(key)) map.set(key, []); map.get(key).push(x)]. *)
Definition pushTo (map : gmap string (list Z)) (key : string) (x : Z)
    : gmap string (list Z) :=
  let map' := match map !! key with
              | Some _ => map
              | None => <[key := []]> map
              end in
  match map' !! key with
  | Some l => <[key := l ++ [x]]> map'
  | None => map'
  end.

(** [recordRequest(endpoint, data)] (lines 614-642); [now] and [now'] are
    the values of the two [Date.now()] calls. *)
Definition recordRequest (m : metrics) (endpoint : string) (data : requestData)
    (now now' : Z) : metrics :=
  let requestCounts' := incrementMapValue (requestCounts m) endpoint in
  let latencies' := pushTo (latencies m) endpoint (duration data) in
  let timestamps' := pushTo (timestamps m) endpoint now in
  let errors' :=
    if success data then errors m
    else incrementMapValue (errors m) endpoint in
  let rateLimit' :=
    if rateLimited data
    then {| hits := hits (rateLimit m) + 1;
            rl_timestamps := rl_timestamps (rateLimit m) ++ [now'] |}
    else rateLimit m in
  {| requestCounts := requestCounts'; latencies := latencies';
     errors := errors'; timestamps := timestamps'; rateLimit := rateLimit' |}.

(** [getRecentRateLimitHits(windowMs = 60000)] (lines 686-691). *)
Definition getRecentRateLimitHits (m : metrics) (now : Z) (windowMs : Z) : Z :=
  Z.of_nat
    (length (List.filter (fun ts => now - ts <=? windowMs)
                         (rl_timestamps (rateLimit m)))).

Section Aggregates.

(** Binary64 division and multiplication, and [Number.prototype.toFixed],
    are operations of the runtime; the aggregates are defined over them. *)
Variable fdiv : Z -> Z -> Q.
Variable fmul : Q -> Q -> Q.
Variable toFixed : Q -> Z -> string.

(** [calculateErrorRates()] (lines 666-673): for each entry of
    [requestCounts], [(errors / count * 100).toFixed(2)]. *)
Definition calculateErrorRates (m : metrics) : gmap string string :=
  map_imap
    (fun endpoint count =>
       let errs := or0 (errors m !! endpoint) in
       Some (toFixed (fmul (fdiv errs count) 100%Q) 2))
    (requestCounts m).

(** [calculateAverageLatencies()] (lines 675-684). *)
Definition calculateAverageLatencies (m : metrics) : gmap string Z :=
  map_imap
    (fun (endpoint : string) (l : list Z) =>
       if (0 <? length l)%nat
       then Some (Math_round
                    (fdiv (sumLatencies l) (Z.of_nat (length l))))
       else None)
    (latencies m).

End Aggregates.

(** ** The rate-limit check of the worker loop *)

(** The end of an iteration of [LoadTester.startWorker] (lines 112-115):
<<
    if (this.metricCollector.getRecentRateLimitHits() > 10) {
        await new Promise(resolve => setTimeout(resolve, 1000));
    }
>>
    [now] is the time of the check and [lag] how late the timer fires
    (never early); the result is the time at which the worker goes on to
    pull its next request. *)
Definition cooldownDelay (m : metrics) (now : Z) : Z :=
  if 10 <? getRecentRateLimitHits m now 60000 then 1000 else 0.

Definition nextPull (m : metrics) (now lag : Z) : Z :=
  if 10 <? getRecentRateLimitHits m now 60000
  then now + (1000 + lag)
  else now.

(** ** Sequences of calls *)

Record call := {
  c_worker : nat;
  c_endpoint : string;
  c_data : requestData;
  c_now : Z;
  c_now' : Z
}.

Definition recordCall (m : metrics) (c : call) : metrics :=
  recordRequest m (c_endpoint c) (c_data c) (c_now c) (c_now' c).

Definition recordAll (m : metrics) (calls : list call) : metrics :=
  fold_left recordCall calls m.

(** The event [(endpoint, duration, success)] of a call. *)
Definition requestEvent : Type := string * Z * bool.

Definition eventOf (c : call) : requestEvent :=
  (c_endpoint c, duration (c_data c), success (c_data c)).

(** Durations, in order, of the events of an endpoint; number of its
    events that failed. *)
Fixpoint durationsOf (endpoint : string) (events : list requestEvent)
    : list Z :=
  match events with
  | [] => []
  | (e, d, _) :: rest =>
      if decide (e = endpoint) then d :: durationsOf endpoint rest
      else durationsOf endpoint rest
  end.

Fixpoint failuresOf (endpoint : string) (events : list requestEvent) : nat :=
  match events with
  | [] => O
  | (e, _, ok) :: rest =>
      if decide (e = endpoint)
      then (if ok then O else 1%nat) + failuresOf endpoint rest
      else failuresOf endpoint rest
  end.

Definition sumZ (l : list Z) : Z := fold_right Z.add 0 l.

(** Times, in order, recorded for an endpoint. *)
Fixpoint timesOf (endpoint : string) (calls : list call) : list Z :=
  match calls with
  | [] => []
  | c :: rest =>
      if decide (c_endpoint c = endpoint)
      then c_now c :: timesOf endpoint rest
      else timesOf endpoint rest
  end.

(** Times of the rate-limited calls, in order. *)
Fixpoint limitedTimes (calls : list call) : list Z :=
  match calls with
  | [] => []
  | c :: rest =>
      if rateLimited (c_data c) then c_now' c :: limitedTimes rest
      else limitedTimes rest
  end.

(** ** One call *)

Lemma or0_Some (n : Z) : or0 (Some n) = n.
Proof. unfold or0; destruct (Z.eqb_spec n 0); congruence. Qed.

Lemma lookup_incrementMapValue (map : gmap string Z) (key k : string) :
  incrementMapValue map key !! k
  = if decide (key = k) then Some (or0 (map !! key) + 1) else map !! k.
Proof. unfold incrementMapValue; apply lookup_insert. Qed.

Lemma lookup_pushTo (map : gmap string (list Z)) (key k : string) (x : Z) :
  pushTo map key x !! k
  = if decide (key = k) then Some (default [] (map !! key) ++ [x])
    else map !! k.
Proof.
  unfold pushTo; destruct (map !! key) as [l|] eqn:Hkey.
  - rewrite Hkey, lookup_insert; reflexivity.
  - rewrite lookup_insert_eq, !lookup_insert.
    destruct (decide (key = k)); reflexivity.
Qed.

Lemma recordAll_cons (m : metrics) (c : call) (calls : list call) :
  recordAll m (c :: calls) = recordAll (recordCall m c) calls.
Proof. reflexivity. Qed.

(** ** The state after a sequence of calls *)

Lemma requestCounts_recordAll (calls : list call) :
  forall (m : metrics) (ep : string),
    requestCounts (recordAll m calls) !! ep
    = match durationsOf ep (map eventOf calls) with
      | [] => requestCounts m !! ep
      | ds => Some (or0 (requestCounts m !! ep) + Z.of_nat (length ds))
      end.
Proof.
  induction calls as [|c calls IH]; intros m ep; [reflexivity|].
  rewrite recordAll_cons, IH; cbn [map durationsOf eventOf].
  cbn [recordCall recordRequest requestCounts].
  rewrite lookup_incrementMapValue.
  destruct (decide (c_endpoint c = ep)) as [->|Hne]; [|reflexivity].
  destruct (durationsOf ep (map eventOf calls));
    rewrite ?or0_Some; cbn [length]; f_equal; lia.
Qed.

Lemma errors_recordAll (calls : list call) :
  forall (m : metrics) (ep : string),
    errors (recordAll m calls) !! ep
    = match failuresOf ep (map eventOf calls) with
      | O => errors m !! ep
      | n => Some (or0 (errors m !! ep) + Z.of_nat n)
      end.
Proof.
  induction calls as [|c calls IH]; intros m ep; [reflexivity|].
  rewrite recordAll_cons, IH; cbn [map failuresOf eventOf].
  cbn [recordCall recordRequest errors].
  destruct (success (c_data c)).
  - destruct (decide (c_endpoint c = ep)); reflexivity.
  - rewrite lookup_incrementMapValue.
    destruct (decide (c_endpoint c = ep)) as [->|Hne]; [|reflexivity].
    destruct (failuresOf ep (map eventOf calls));
      rewrite ?or0_Some; cbn [Nat.add]; f_equal; lia.
Qed.

Lemma latencies_recordAll (calls : list call) :
  forall (m : metrics) (ep : string),
    latencies (recordAll m calls) !! ep
    = match durationsOf ep (map eventOf calls) with
      | [] => latencies m !! ep
      | ds => Some (default [] (latencies m !! ep) ++ ds)
      end.
Proof.
  induction calls as [|c calls IH]; intros m ep; [reflexivity|].
  rewrite recordAll_cons, IH; cbn [map durationsOf eventOf].
  cbn [recordCall recordRequest latencies].
  rewrite lookup_pushTo.
  destruct (decide (c_endpoint c = ep)) as [->|Hne]; [|reflexivity].
  destruct (durationsOf ep (map eventOf calls)); unfold default;
    cbn [from_option id]; rewrite <- ?app_assoc; reflexivity.
Qed.

Lemma timestamps_recordAll (calls : list call) :
  forall (m : metrics) (ep : string),
    timestamps (recordAll m calls) !! ep
    = match timesOf ep calls with
      | [] => timestamps m !! ep
      | ts => Some (default [] (timestamps m !! ep) ++ ts)
      end.
Proof.
  induction calls as [|c calls IH]; intros m ep; [reflexivity|].
  rewrite recordAll_cons, IH; cbn [timesOf].
  cbn [recordCall recordRequest timestamps].
  rewrite lookup_pushTo.
  destruct (decide (c_endpoint c = ep)) as [->|Hne]; [|reflexivity].
  destruct (timesOf ep calls); unfold default; cbn [from_option id];
    rewrite <- ?app_assoc; reflexivity.
Qed.

Lemma rateLimit_recordAll (calls : list call) :
  forall m : metrics,
    rl_timestamps (rateLimit (recordAll m calls))
    = rl_timestamps (rateLimit m) ++ limitedTimes calls.
Proof.
  induction calls as [|c calls IH]; intros m.
  - simpl; rewrite app_nil_r; reflexivity.
  - rewrite recordAll_cons, IH; cbn [limitedTimes].
    cbn [recordCall recordRequest rateLimit].
    destruct (rateLimited (c_data c)); cbn [rl_timestamps];
      rewrite <- ?app_assoc; reflexivity.
Qed.

Lemma timesOf_length (ep : string) (calls : list call) :
  length (timesOf ep calls) = length (durationsOf ep (map eventOf calls)).
Proof.
  induction calls as [|c calls IH]; [reflexivity|].
  cbn [timesOf map durationsOf eventOf].
  destruct (decide (c_endpoint c = ep)); cbn [length]; congruence.
Qed.

Lemma failuresOf_le (ep : string) (events : list requestEvent) :
  (failuresOf ep events <= length (durationsOf ep events))%nat.
Proof.
  induction events as [|[[e d] ok] events IH]; [reflexivity|].
  cbn [failuresOf durationsOf].
  destruct (decide (e = ep)); [|exact IH].
  destruct ok; cbn [length Nat.add]; lia.
Qed.

(** ** Sums *)

Lemma round53_exact (z : Z) : Z.abs z <= 2 ^ 53 -> round53 z = z.
Proof.
  intros H; unfold round53.
  destruct (Z.leb_spec (Z.abs z) (2 ^ 53)); [reflexivity | lia].
Qed.

Lemma sumZ_abs_nonneg (l : list Z) : 0 <= sumZ (map Z.abs l).
Proof. induction l; unfold sumZ in *; simpl; lia. Qed.

Lemma sumZ_cons (d : Z) (l : list Z) : sumZ (d :: l) = d + sumZ l.
Proof. reflexivity. Qed.

Lemma fold_js_add_exact (l : list Z) :
  forall a : Z,
    Z.abs a + sumZ (map Z.abs l) <= 2 ^ 53 ->
    fold_left js_add l a = a + sumZ l.
Proof.
  induction l as [|d l IH]; intros a Hbound;
    cbn [fold_left map] in *; rewrite ?sumZ_cons in *.
  - unfold sumZ; simpl; lia.
  - pose proof (sumZ_abs_nonneg l) as Hl.
    unfold js_add at 2; rewrite round53_exact by lia.
    rewrite IH by lia; lia.
Qed.



(** ** Events under permutation *)






(** ** Aggregates after a sequence of calls on a new collector *)

Lemma counts_of_run (calls : list call) (ep : string) :
  or0 (requestCounts (recordAll initial calls) !! ep)
  = Z.of_nat (length (durationsOf ep (map eventOf calls))).
Proof.
  rewrite requestCounts_recordAll; cbn [initial requestCounts].
  rewrite lookup_empty.
  destruct (durationsOf ep (map eventOf calls)); [reflexivity|].
  rewrite or0_Some; cbn [or0]; lia.
Qed.

Lemma errors_of_run (calls : list call) (ep : string) :
  or0 (errors (recordAll initial calls) !! ep)
  = Z.of_nat (failuresOf ep (map eventOf calls)).
Proof.
  rewrite errors_recordAll; cbn [initial errors].
  rewrite lookup_empty.
  destruct (failuresOf ep (map eventOf calls)); [reflexivity|].
  rewrite or0_Some; cbn [or0]; lia.
Qed.

Lemma latencies_of_run (calls : list call) (ep : string) :
  default [] (latencies (recordAll initial calls) !! ep)
  = durationsOf ep (map eventOf calls).
Proof.
  rewrite latencies_recordAll; cbn [initial latencies].
  rewrite lookup_empty.
  destruct (durationsOf ep (map eventOf calls)); reflexivity.
Qed.

Lemma timestamps_of_run (calls : list call) (ep : string) :
  default [] (timestamps (recordAll initial calls) !! ep) = timesOf ep calls.
Proof.
  rewrite timestamps_recordAll; cbn [initial timestamps].
  rewrite lookup_empty.
  destruct (timesOf ep calls); reflexivity.
Qed.

Section AggregateFacts.

Variable fdiv : Z -> Z -> Q.
Variable fmul : Q -> Q -> Q.
Variable toFixed : Q -> Z -> string.

Lemma errorRate_lookup (m : metrics) (ep : string) :
  calculateErrorRates fdiv fmul toFixed m !! ep
  = match requestCounts m !! ep with
    | Some count =>
        Some (toFixed (fmul (fdiv (or0 (errors m !! ep)) count) 100%Q) 2)
    | None => None
    end.
Proof.
  unfold calculateErrorRates; rewrite map_lookup_imap.
  destruct (requestCounts m !! ep); reflexivity.
Qed.

Lemma averageLatency_lookup (m : metrics) (ep : string) :
  calculateAverageLatencies fdiv m !! ep
  = match latencies m !! ep with
    | Some (d :: l) =>
        Some (Math_round (fdiv (sumLatencies (d :: l))
                               (Z.of_nat (length (d :: l)))))
    | _ => None
    end.
Proof.
  unfold calculateAverageLatencies; rewrite map_lookup_imap.
  destruct (latencies m !! ep) as [[|d l]|]; reflexivity.
Qed.


Lemma averageLatency_of_run (calls : list call) (ep : string) :
  calculateAverageLatencies fdiv (recordAll initial calls) !! ep
  = match durationsOf ep (map eventOf calls) with
    | [] => None
    | ds => Some (Math_round (fdiv (sumLatencies ds) (Z.of_nat (length ds))))
    end.
Proof.
  rewrite averageLatency_lookup, latencies_recordAll.
  cbn [initial latencies]; rewrite lookup_empty.
  destruct (durationsOf ep (map eventOf calls)); reflexivity.
Qed.

End AggregateFacts.

(** ** An exact-arithmetic instance of the number operations, for running
       the aggregates on examples *)

Definition exactDiv (a b : Z) : Q := (inject_Z a / inject_Z b)%Q.

Definition showZ (z : Z) : string := NilZero.string_of_int (Z.to_int z).

(** Decimal notation with [digits] fractional digits, nearest, ties up. *)
Definition showFixed (x : Q) (digits : Z) : string :=
  let scale := 10 ^ digits in
  let n := Qfloor (x * inject_Z scale + (1 # 2)) in
  let pad := NilZero.string_of_uint
               (Pos.to_uint (Z.to_pos (scale + Z.abs n mod scale))) in
  (if n <? 0 then "-" else "") +:+ showZ (Z.abs n / scale) +:+ "."
    +:+ substring 1 (Z.to_nat digits) pad.

Definition mkCall (worker : nat) (endpoint : string) (d : Z) (ok limited : bool)
    (now : Z) : call :=
  {| c_worker := worker; c_endpoint := endpoint;
     c_data := {| duration := d; success := ok; rateLimited := limited |};
     c_now := now; c_now' := now |}.

(** Three calls by two workers: a success and a rate-limited failure on
    [eth_call], a success on [block]. *)
Definition sampleCalls : list call :=
  [ mkCall 0 "eth_call" 120 true false 1000;
    mkCall 1 "eth_call" 80 false true 1010;
    mkCall 0 "block" 45 true false 1020 ].

(** ** Invariants of the collector *)

(** C10.  A call to [recordRequest] appends exactly one duration to the
    latency list of its endpoint and exactly one time stamp to its
    time-stamp list, whatever [success] is, and leaves the lists of the
    other endpoints alone; so after any sequence of calls on a new
    collector the count of an endpoint is the length of its latency list
    (and of its time-stamp list), that list holds the durations of all its
    requests, failed ones included, and the average latency is taken over
    it. *)
Theorem recordRequest_appends (fdiv : Z -> Z -> Q) :
  (forall (m : metrics) (endpoint : string) (data : requestData)
          (now now' : Z),
      let m' := recordRequest m endpoint data now now' in
      latencies m' !! endpoint
      = Some (default [] (latencies m !! endpoint) ++ [duration data]) /\
      timestamps m' !! endpoint
      = Some (default [] (timestamps m !! endpoint) ++ [now]) /\
      forall ep : string,
        ep <> endpoint ->
        latencies m' !! ep = latencies m !! ep /\
        timestamps m' !! ep = timestamps m !! ep) /\
  (forall (calls : list call) (ep : string),
      let m := recordAll initial calls in
      let ds := durationsOf ep (map eventOf calls) in
      default [] (latencies m !! ep) = ds /\
      or0 (requestCounts m !! ep)
      = Z.of_nat (length (default [] (latencies m !! ep))) /\
      length (default [] (timestamps m !! ep))
      = length (default [] (latencies m !! ep)) /\
      calculateAverageLatencies fdiv m !! ep
      = match ds with
        | [] => None
        | _ => Some (Math_round (fdiv (sumLatencies ds)
                                      (Z.of_nat (length ds))))
        end).
Proof.
  split.
  - intros m endpoint data now now' m'; subst m'.
    cbn [recordRequest latencies timestamps].
    rewrite !lookup_pushTo.
    destruct (decide (endpoint = endpoint)); [|congruence].
    repeat split; try reflexivity.
    + rewrite lookup_pushTo; destruct (decide (endpoint = ep)); congruence.
    + rewrite lookup_pushTo; destruct (decide (endpoint = ep)); congruence.
  - intros calls ep m ds; subst m ds.
    rewrite latencies_of_run, timestamps_of_run, counts_of_run,
      timesOf_length, averageLatency_of_run.
    repeat split; try reflexivity.
    destruct (durationsOf ep (map eventOf calls)); reflexivity.
Qed.

Lemma recordRequest_appends_witness :
  "block"%string <> "eth_call"%string /\
  latencies (recordAll initial sampleCalls) !! "eth_call"%string
  = Some [120; 80] /\
  calculateAverageLatencies exactDiv (recordAll initial sampleCalls)
    !! "eth_call"%string = Some 100.
Proof.
  assert (Hne : "block"%string <> "eth_call"%string) by discriminate.
  split; [exact Hne|].
  destruct (recordRequest_appends exactDiv) as [_ Hrun].
  destruct (Hrun sampleCalls "eth_call"%string) as (Hl & _ & _ & Havg).
  split; [|exact Havg].
  rewrite latencies_recordAll; reflexivity.
Defined.

(** C7.  Every call preserves [errors(endpoint) <= count(endpoint)], since
    the error counter is only incremented in a call that also increments
    the request counter; after any sequence of calls on a new collector
    the two counters are the numbers of failed and of all requests of the
    endpoint, and the reported error rate is [errors / count * 100]
    written with two decimals. *)
Theorem errors_bounded_by_count (fdiv : Z -> Z -> Q) (fmul : Q -> Q -> Q)
    (toFixed : Q -> Z -> string) :
  (forall (m : metrics) (c : call),
      (forall ep, or0 (errors m !! ep) <= or0 (requestCounts m !! ep)) ->
      forall ep,
        or0 (errors (recordCall m c) !! ep)
        <= or0 (requestCounts (recordCall m c) !! ep)) /\
  (forall (calls : list call) (ep : string),
      let m := recordAll initial calls in
      let events := map eventOf calls in
      or0 (errors m !! ep) = Z.of_nat (failuresOf ep events) /\
      or0 (requestCounts m !! ep)
      = Z.of_nat (length (durationsOf ep events)) /\
      or0 (errors m !! ep) <= or0 (requestCounts m !! ep) /\
      calculateErrorRates fdiv fmul toFixed m !! ep
      = match requestCounts m !! ep with
        | Some count =>
            Some (toFixed
                    (fmul (fdiv (or0 (errors m !! ep)) count) 100%Q) 2)
        | None => None
        end).
Proof.
  split.
  - intros m c Hinv ep; specialize (Hinv ep).
    cbn [recordCall recordRequest requestCounts errors].
    rewrite lookup_incrementMapValue.
    destruct (success (c_data c)).
    + destruct (decide (c_endpoint c = ep)) as [->|]; [|exact Hinv].
      rewrite or0_Some; lia.
    + rewrite lookup_incrementMapValue.
      destruct (decide (c_endpoint c = ep)) as [->|]; [|exact Hinv].
      rewrite !or0_Some; lia.
  - intros calls ep m events; subst m events.
    rewrite errorRate_lookup, errors_of_run, counts_of_run.
    pose proof (failuresOf_le ep (map eventOf calls)).
    repeat split; try reflexivity; lia.
Qed.

Lemma errors_bounded_by_count_witness :
  (forall ep, or0 (errors initial !! ep) <= or0 (requestCounts initial !! ep))
  /\
  or0 (errors (recordAll initial sampleCalls) !! "eth_call"%string) = 1 /\
  or0 (requestCounts (recordAll initial sampleCalls) !! "eth_call"%string)
  = 2 /\
  calculateErrorRates exactDiv Qmult showFixed
    (recordAll initial sampleCalls) !! "eth_call"%string
  = Some "50.00"%string.
Proof.
  assert (H0 : forall ep,
             or0 (errors initial !! ep) <= or0 (requestCounts initial !! ep)).
  { intros ep; cbn [initial errors requestCounts].
    rewrite !lookup_empty; reflexivity. }
  split; [exact H0|].
  destruct (errors_bounded_by_count exactDiv Qmult showFixed) as [_ Hrun].
  destruct (Hrun sampleCalls "eth_call"%string) as (He & Hc & _ & Hrate).
  split; [exact He|]; split; [exact Hc|].
  rewrite Hrate, He, requestCounts_recordAll; reflexivity.
Defined.

(** ** Order independence *)



(** ** Backpressure *)

(** The rate-limited calls whose time stamp lies in the trailing window
    [[now - 60000, now]]. *)
Definition recentLimited (calls : list call) (now : Z) : list call :=
  List.filter
    (fun c => rateLimited (c_data c)
              && (now - 60000 <=? c_now' c) && (c_now' c <=? now))
    calls.

(** How a request of a worker ended: a response, or an error with the
    HTTP status of [error.response], if any. *)
Inductive requestOutcome : Type :=
  | Responded
  | Failed (status : option Z).

(** The call to [recordRequest] a worker makes for a request of type
    [type] started at [startTime] (lines 76-79 and 92-97); [finished] is
    [Date.now()] when the result is recorded. *)
Definition callOf (worker : nat) (type : string) (startTime finished : Z)
    (o : requestOutcome) (now now' : Z) : call :=
  {| c_worker := worker; c_endpoint := type;
     c_data :=
       match o with
       | Responded =>
           {| duration := finished - startTime; success := true;
              rateLimited := false |}
       | Failed status =>
           {| duration := finished - startTime; success := false;
              rateLimited := match status with
                             | Some code => code =? 429
                             | None => false
                             end |}
       end;
     c_now := now; c_now' := now' |}.

(** The end of an iteration of a worker: the result of its request is
    recorded, then the rate-limit check decides when the worker pulls its
    next request.  (The occasional [takeSnapshot] between the two reads
    [this.metrics] and appends to [this.snapshots] only.) *)
Definition workerIteration (m : metrics) (c : call) (now lag : Z)
    : metrics * Z :=
  let m' := recordCall m c in
  (m', nextPull m' now lag).

Lemma recordAll_snoc (m : metrics) (calls : list call) (c : call) :
  recordAll m (calls ++ [c]) = recordCall (recordAll m calls) c.
Proof. unfold recordAll; rewrite fold_left_app; reflexivity. Qed.

Lemma recentLimited_counted (calls : list call) (now : Z) :
  (length (recentLimited calls now)
   <= length (List.filter (fun ts => (now - ts <=? 60000)%Z)
                          (limitedTimes calls)))%nat.
Proof.
  induction calls as [|c calls IH]; [reflexivity|].
  unfold recentLimited in *; cbn [List.filter limitedTimes].
  destruct (rateLimited (c_data c)); cbn [andb List.filter]; [|exact IH].
  destruct (Z.leb_spec (now - 60000) (c_now' c)); cbn [andb].
  - destruct (Z.leb_spec (now - c_now' c) 60000); [|lia].
    destruct (c_now' c <=? now); cbn [length]; lia.
  - destruct (now - c_now' c <=? 60000); cbn [length]; lia.
Qed.

(** C5.  The collector is shared by the workers of the pool: whichever
    workers recorded them, when more than 10 rate-limit events with time
    stamps in the trailing 60000-unit window are on record at the check
    that ends a worker's iteration, that worker waits 1000 units (or
    longer, a timer never fires early) before it pulls its next
    request. *)
Theorem backpressure_cooldown (earlier : list call) (c : call)
    (now lag : Z) :
  0 <= lag ->
  (10 < length (recentLimited (earlier ++ [c]) now))%nat ->
  let m := recordAll initial earlier in
  cooldownDelay (fst (workerIteration m c now lag)) now = 1000 /\
  now + 1000 <= snd (workerIteration m c now lag).
Proof.
  intros Hlag Hmany m; subst m.
  unfold workerIteration, cooldownDelay, nextPull; cbn [fst snd].
  rewrite <- recordAll_snoc.
  pose proof (recentLimited_counted (earlier ++ [c]) now) as Hcount.
  unfold getRecentRateLimitHits.
  rewrite rateLimit_recordAll; cbn [initial rateLimit rl_timestamps app].
  destruct (Z.ltb_spec 10
              (Z.of_nat
                 (length (List.filter (fun ts => now - ts <=? 60000)
                                      (limitedTimes (earlier ++ [c]))))));
    [split; lia | lia].
Qed.

Lemma backpressure_cooldown_witness :
  let earlier :=
    map (fun i => mkCall (i mod 3) "eth_call" 10 false true
                         (1000 + Z.of_nat i))
        (seq 0 10) in
  let c := callOf 1 "block" 1488 1500 (Failed (Some 429)) 1500 1500 in
  0 <= 3 /\
  (10 < length (recentLimited (earlier ++ [c]) 2000))%nat /\
  2000 + 1000 <= snd (workerIteration (recordAll initial earlier) c 2000 3).
Proof.
  intros earlier c.
  assert (H0 : 0 <= 3) by lia.
  assert (H1 : (10 < length (recentLimited (earlier ++ [c]) 2000))%nat).
  { vm_compute; lia. }
  split; [exact H0|]; split; [exact H1|].
  exact (proj2 (backpressure_cooldown earlier c 2000 3 H0 H1)).
Defined.

End Metrics.

(* ===================================================================== *)
(** * Weighted sampling: ranges, intervals and the shape of a batch *)
(* ===================================================================== *)

Module SamplingFacts.

Import Sampling.

Local Open Scope Q_scope.


Lemma picks_members (tbl : weight_table) (total : Q) (rand : RandomSource)
    (positions : list nat) :
  (length (picks tbl total rand positions) <= length positions)%nat /\
  Forall (fun m => In m (map fst tbl)) (picks tbl total rand positions).
Proof.
  induction positions as [|i rest [IHl IHf]].
  - split; [reflexivity | constructor].
  - rewrite picks_cons.
    destruct (selectMethod tbl (rand i * total)) as [m|] eqn:Hsel.
    + split; [cbn [length]; lia|].
      constructor; [eapply selectMethod_In; eassumption | exact IHf].
    + split; [cbn [length]; lia | exact IHf].
Qed.





(** ** The descriptors of a batch *)

Lemma toRequest_fields (now : Z) (m : string) (d : descriptor) :
  toRequest now m = Some d ->
  d_type d = m /\
  exists t, template_of templates m = Some t /\
            d_method d = http_method t /\ d_params d = createParams t now.
Proof.
  unfold toRequest; destruct (template_of templates m) as [t|];
    [|discriminate].
  intros [= <-]; split; [reflexivity|].
  exists t; repeat split; reflexivity.
Qed.

Lemma template_methods (m : string) (t : template) :
  template_of templates m = Some t ->
  http_method t = "GET"%string \/ http_method t = "POST"%string.
Proof.
  unfold templates; cbn [template_of].
  repeat (destruct (String.eqb _ m);
          [intros [= <-]; cbn [http_method]; auto|]).
  discriminate.
Qed.

Definition wellFormed (clock : nat -> Z) (d : descriptor) : Prop :=
  exists (t : template) (i : nat),
    template_of templates (d_type d) = Some t /\
    d_method d = http_method t /\
    d_params d = createParams t (clock i) /\
    (d_method d = "GET"%string \/ d_method d = "POST"%string).

Lemma filterBoolean_types (clock : nat -> Z) (sequence : list string) :
  Forall (fun m => In m (map fst methods)) sequence ->
  let batch :=
    filterBoolean (imap (fun i method => toRequest (clock i) method) sequence)
  in
  map d_type batch
  = List.filter (fun m => negb (String.eqb "other" m)) sequence /\
  Forall (wellFormed clock) batch.
Proof.
  intros Hall; revert clock; induction Hall as [|m rest Hm _ IH];
    intros clock; [split; [reflexivity | constructor]|].
  cbv zeta; cbn [imap List.filter].
  destruct (IH (fun i => clock (S i))) as [IHt IHw].
  assert (Hw : Forall (wellFormed clock)
                 (filterBoolean
                    (imap (fun i method => toRequest (clock (S i)) method)
                          rest))).
  { eapply Forall_impl; [exact IHw|].
    intros d (t & i & H1 & H2 & H3 & H4); exists t, (S i); auto. }
  destruct (toRequest_cases (clock O) m Hm) as [[-> ->]|[-> [d Hd]]];
    cbn [negb filterBoolean map]; unfold compose.
  - split; [exact IHt | exact Hw].
  - rewrite Hd; cbn [filterBoolean map].
    destruct (toRequest_fields _ _ _ Hd) as (Hty & t & Ht & Hmeth & Hpar).
    split; [f_equal; [exact Hty | exact IHt]|].
    constructor; [|exact Hw].
    exists t, O; rewrite Hty, Hmeth; repeat split; auto.
    apply (template_methods m); exact Ht.
Qed.

(** X3.  The batch of [generateBatch] lists, in the order drawn, the drawn
    methods other than ['other']: one descriptor per such draw, whose
    [type] is the method and whose [method] (GET or POST) and [params] are
    those of the method's template. *)
Theorem batch_follows_sequence (b : nat) (rand : RandomSource) (pos : nat)
    (clock : nat -> Z) :
  let sequence := fst (generateRequestSequence methods rand pos b) in
  let batch := fst (generateBatch b rand pos clock) in
  map d_type batch
  = List.filter (fun m => negb (String.eqb "other" m)) sequence /\
  Forall (wellFormed clock) batch /\
  snd (generateBatch b rand pos clock) = (pos + b)%nat.
Proof.
  cbv zeta; unfold generateBatch.
  rewrite generateRequestSequence_picks; cbn [fst snd].
  destruct (picks_members methods (totalWeight methods) rand (seq pos b))
    as [_ Hall].
  destruct (filterBoolean_types clock _ Hall) as [Ht Hw].
  repeat split; assumption.
Qed.

End SamplingFacts.

(* ===================================================================== *)
(** * Fingerprints: size of a pattern and what it distinguishes *)
(* ===================================================================== *)

Module FingerprintFacts.

Import Fingerprint.

Local Open Scope Z_scope.

(** Nesting depth of a pattern: 0 for a tag. *)
Fixpoint patternDepth (p : pattern) : nat :=
  match p with
  | PTag _ => O
  | PArr first => S (patternDepth first)
  | PObj props =>
      S (fold_right (fun kp acc => Nat.max (patternDepth (snd kp)) acc)
                    O props)
  end.

(** The tag strings [createStructuralPattern] returns. *)
Definition sentinels : list string :=
  ["MAX_DEPTH"; "EMPTY_ARRAY"; "NULL"; "STRING"; "NUMBER"; "BOOLEAN";
   "undefined"]%string.

(** Every tag of the pattern is one of [sentinels]. *)
Fixpoint tagged (p : pattern) : Prop :=
  match p with
  | PTag tag => In tag sentinels
  | PArr first => tagged first
  | PObj props =>
      fold_right (fun kp acc => tagged (snd kp) /\ acc) True props
  end.


Lemma pattern_bounded (n : nat) :
  forall (v : value) (depth : Z),
    4 - Z.of_nat n <= depth ->
    (patternDepth (createStructuralPattern v depth) <= n)%nat /\
    tagged (createStructuralPattern v depth).
Proof.
  induction n as [|n IH]; intros v depth Hd.
  - rewrite beyond_bound_collapses by lia.
    split; [reflexivity | simpl; auto].
  - rewrite createStructuralPattern_unfold.
    destruct (3 <? depth); [split; [cbn; lia | simpl; auto]|].
    destruct v as [| | | | |[|first rest]|props];
      try (split; [cbn; lia | simpl; tauto]).
    + destruct (IH first (depth + 1)) as [Hdep Htag]; [lia|].
      split; [cbn [patternDepth]; lia | exact Htag].
    + cbn [patternDepth tagged].
      induction props as [|[key v] props [IHd IHt]];
        [split; [cbn; lia | exact I]|].
      destruct (IH v (depth + 1)) as [Hdep Htag]; [lia|].
      cbn [map fold_right snd]; split; [|split; [exact Htag | exact IHt]].
      apply le_n_S, Nat.max_lub; [exact Hdep | lia].
Qed.

(** X4.  A fingerprint is never nested deeper than four levels, whatever
    the response, and all its tags are among the seven sentinel strings; a
    response nested five levels deep reaches the bound. *)
Theorem fingerprint_is_bounded :
  (forall v : value,
      (patternDepth (createStructuralPattern v 0) <= 4)%nat /\
      tagged (createStructuralPattern v 0)) /\
  patternDepth (createStructuralPattern nested5 0) = 4%nat.
Proof.
  split; [|reflexivity].
  intros v; apply (pattern_bounded 4); lia.
Qed.




End FingerprintFacts.

(* ===================================================================== *)
(** * Scenario execution: number of batches, order of the requests,
      degenerate concurrency *)
(* ===================================================================== *)

Module ScenarioFacts.

Import Scenario.

Local Open Scope Z_scope.

(** The queries started, in order. *)
Definition starts (trace : list event) : list query :=
  omap (fun e => match e with Start q => Some q | AwaitAll => None end) trace.

(** ** Number of chunks *)

Lemma chunkLoop_count {A : Type} (array : list A) (size : Z) :
  0 < size ->
  forall (fuel : nat) (i : Z) (chunks : list (list A)),
    0 <= i -> Z.of_nat (length array) - i <= Z.of_nat fuel ->
    exists rest,
      chunkLoop fuel array size i chunks = Some (chunks ++ rest) /\
      Z.of_nat (length rest)
      = if i <? Z.of_nat (length array)
        then (Z.of_nat (length array) - i + size - 1) / size
        else 0.
Proof.
  intros Hsize; induction fuel as [|fuel IH]; intros i chunks Hi Hfuel;
    cbn [chunkLoop];
    destruct (Z.ltb_spec i (Z.of_nat (length array))) as [Hlt|Hge];
    try lia.
  - exists []; rewrite app_nil_r; split; reflexivity.
  - destruct (IH (i + size) (chunks ++ [slice array i (i + size)]))
      as (rest & Hrun & Hlen); [lia | lia |].
    exists (slice array i (i + size) :: rest).
    split; [rewrite Hrun, <- app_assoc; reflexivity|].
    cbn [length]; rewrite Nat2Z.inj_succ, Hlen.
    destruct (Z.ltb_spec (i + size) (Z.of_nat (length array))).
    + replace (Z.of_nat (length array) - i + size - 1)
        with (Z.of_nat (length array) - (i + size) + size - 1 + 1 * size)
        by lia.
      rewrite Z.div_add by lia; lia.
    + replace (Z.of_nat (length array) - i + size - 1)
        with (Z.of_nat (length array) - i - 1 + 1 * size) by lia.
      rewrite Z.div_add, Z.div_small by lia; lia.
  - exists []; rewrite app_nil_r; split; reflexivity.
Qed.

(** X6.  For a positive size, [chunkArray(array, size)] returns
    [ceil(length / size)] chunks whose concatenation is the array; an array
    that fits in one chunk comes back as that single chunk, and the empty
    array gives no chunk. *)
Theorem chunkArray_count {A : Type} (array : list A) (size : Z)
    (fuel : nat) :
  0 < size -> (length array <= fuel)%nat ->
  exists batches,
    chunkArray fuel array size = Some batches /\
    Z.of_nat (length batches) = (Z.of_nat (length array) + size - 1) / size /\
    concat batches = array /\
    (array <> [] -> Z.of_nat (length array) <= size -> batches = [array]) /\
    (array = [] -> batches = []).
Proof.
  intros Hsize Hfuel.
  destruct (chunkLoop_count array size Hsize fuel 0 [])
    as (batches & Hrun & Hlen); [lia | lia |].
  destruct (chunkArray_spec array size fuel Hsize Hfuel)
    as (batches' & Hrun' & Hcat & _).
  unfold chunkArray in *; cbn [app] in Hrun.
  rewrite Hrun in Hrun'; injection Hrun' as <-.
  assert (Hcount : Z.of_nat (length batches)
                   = (Z.of_nat (length array) + size - 1) / size).
  { rewrite Hlen.
    destruct (Z.ltb_spec 0 (Z.of_nat (length array))).
    - f_equal; lia.
    - rewrite Z.div_small; lia. }
  exists batches; split; [exact Hrun|]; split; [exact Hcount|].
  split; [exact Hcat|]; split.
  - intros Hne Hfit.
    assert (Hone : Z.of_nat (length batches) = 1).
    { rewrite Hcount.
      replace (Z.of_nat (length array) + size - 1)
        with (Z.of_nat (length array) - 1 + 1 * size) by lia.
      destruct array; [congruence|].
      cbn [length] in *; rewrite Z.div_add, Z.div_small by lia; lia. }
    destruct batches as [|b [|b' rest]]; cbn [length] in Hone; try lia.
    cbn [concat] in Hcat; rewrite app_nil_r in Hcat; subst b; reflexivity.
  - intros ->; cbn [length] in Hcount.
    rewrite Z.div_small in Hcount by lia.
    destruct batches; [reflexivity | discriminate Hcount].
Qed.

Lemma chunkArray_count_witness :
  0 < 3 /\ (length [1; 2; 3; 4; 5; 6; 7]%nat <= 7)%nat /\
  exists batches,
    chunkArray 7 [1; 2; 3; 4; 5; 6; 7]%nat 3 = Some batches /\
    Z.of_nat (length batches) = 3 /\
    concat batches = [1; 2; 3; 4; 5; 6; 7]%nat.
Proof.
  assert (H0 : 0 < 3) by lia.
  assert (H1 : (length [1; 2; 3; 4; 5; 6; 7]%nat <= 7)%nat) by (simpl; lia).
  split; [exact H0|]; split; [exact H1|].
  destruct (chunkArray_count [1; 2; 3; 4; 5; 6; 7]%nat 3 7 H0 H1)
    as (batches & Hrun & Hlen & Hcat & _).
  exists batches; split; [exact Hrun|]; split; [exact Hlen | exact Hcat].
Defined.

(** ** Degenerate scenarios *)

(** X7.  A scenario without queries finishes at once without starting a
    request, whatever the concurrency; a scenario with queries whose
    effective concurrency is not positive never gets past [chunkArray],
    whose loop does not advance: no request is ever started. *)
Theorem runScenario_degenerate (fuel : nat) (initialConcurrency : Q)
    (s : scenario) (ok : nat -> bool) :
  (queries s = [] ->
   runScenario fuel initialConcurrency s ok = Some ([], Fulfilled)) /\
  (queries s <> [] -> Qceiling (initialConcurrency * weight s) <= 0 ->
   runScenario fuel initialConcurrency s ok = None).
Proof.
  split.
  - intros Hq; unfold runScenario, chunkArray; rewrite Hq.
    destruct fuel; reflexivity.
  - intros Hq Hc; apply runScenario_needs_positive_concurrency; assumption.
Qed.

Lemma runScenario_degenerate_witness :
  let idle := {| name := "token-queries"; weight := 3; queries := [] |} in
  queries idle = [] /\ queries fourQueries <> [] /\
  Qceiling (0 * weight fourQueries) <= 0 /\
  runScenario 0 5 idle (fun _ => true) = Some ([], Fulfilled) /\
  runScenario 1000 0 fourQueries (fun _ => true) = None.
Proof.
  intros idle.
  assert (H0 : queries idle = []) by reflexivity.
  assert (H1 : queries fourQueries <> []) by discriminate.
  assert (H2 : Qceiling (0 * weight fourQueries) <= 0) by (vm_compute; discriminate).
  split; [exact H0|]; split; [exact H1|]; split; [exact H2|]; split.
  - exact (proj1 (runScenario_degenerate 0 5 idle (fun _ => true)) H0).
  - exact (proj2 (runScenario_degenerate 1000 0 fourQueries (fun _ => true))
             H1 H2).
Defined.

(** ** Order of the requests *)

Lemma starts_app (t1 t2 : list event) :
  starts (t1 ++ t2) = starts t1 ++ starts t2.
Proof.
  induction t1 as [|[q|] t1 IH]; cbn; [reflexivity | |];
    unfold starts in IH; rewrite ?IH; reflexivity.
Qed.

Lemma starts_batch (batch : list query) :
  starts (map Start batch ++ [AwaitAll]) = batch.
Proof.
  induction batch as [|q batch IH]; [reflexivity|].
  cbn; unfold starts in IH; rewrite IH; reflexivity.
Qed.

Lemma starts_issue (batches : list (list query)) :
  starts (issue batches) = concat batches.
Proof.
  induction batches as [|batch rest IH]; [reflexivity|].
  unfold issue in *; cbn [map concat].
  rewrite starts_app, starts_batch, IH; reflexivity.
Qed.

Lemma all_ok_range (ok : nat -> bool) (from n : nat) :
  forallb (fun r => r) (map ok (seq from n)) = true
  <-> forall i, (from <= i < from + n)%nat -> ok i = true.
Proof.
  revert from; induction n as [|n IH]; intros from; cbn [seq map forallb].
  - split; [intros _ i Hi; lia | reflexivity].
  - rewrite andb_true_iff, IH; split.
    + intros [H0 Hrest] i Hi.
      destruct (Nat.eq_dec i from) as [->|]; [exact H0 | apply Hrest; lia].
    + intros H; split; [apply H; lia | intros i Hi; apply H; lia].
Qed.

Lemma first_failure_in_range (ok : nat -> bool) (from n : nat) :
  forallb (fun r => r) (map ok (seq from n)) = false ->
  exists i, (from <= i < from + n)%nat /\ ok i = false.
Proof.
  revert from; induction n as [|n IH]; intros from; cbn [seq map forallb];
    [discriminate|].
  destruct (ok from) eqn:H0; cbn [andb].
  - intros H; destruct (IH _ H) as (i & Hi & Hfail).
    exists i; split; [lia | exact Hfail].
  - intros _; exists from; split; [lia | exact H0].
Qed.

Lemma runBatches_outcome (ok : nat -> bool) (batches : list (list query)) :
  forall (started : nat) (trace : list event),
  exists issued later result,
    runBatches ok started batches trace = (trace ++ issue issued, result) /\
    batches = issued ++ later /\
    (result = Fulfilled ->
     later = [] /\
     forall i, (started <= i < started + length (concat issued))%nat ->
               ok i = true) /\
    (result = Rejected ->
     exists i, (started <= i < started + length (concat issued))%nat /\
               ok i = false).
Proof.
  induction batches as [|batch rest IH]; intros started trace.
  - exists [], [], Fulfilled; cbn [runBatches issue map concat].
    rewrite app_nil_r; repeat split; try discriminate.
    cbn [length]; intros i Hi; lia.
  - cbn [runBatches].
    destruct (forallb (fun r => r) (map ok (seq started (length batch))))
      eqn:Hall.
    + destruct (IH (started + length batch)%nat
                   (trace ++ map Start batch ++ [AwaitAll]))
        as (issued & later & result & Hrun & Hsplit & Hdone & Hrej).
      exists (batch :: issued), later, result.
      rewrite Hrun, Hsplit; unfold issue; cbn [map concat].
      rewrite <- !app_assoc, length_app.
      split; [reflexivity|]; split; [reflexivity|]; split.
      * intros Hres; destruct (Hdone Hres) as [Hl Hok].
        split; [exact Hl|]; intros i Hi.
        destruct (Nat.lt_ge_cases i (started + length batch)).
        -- apply (proj1 (all_ok_range ok started (length batch)) Hall); lia.
        -- apply Hok; lia.
      * intros Hres; destruct (Hrej Hres) as (i & Hi & Hfail).
        exists i; split; [lia | exact Hfail].
    + exists [batch], rest, Rejected; unfold issue; cbn [map concat].
      rewrite !app_nil_r.
      split; [reflexivity|]; split; [reflexivity|]; split; [discriminate|].
      intros _.
      destruct (first_failure_in_range ok started (length batch) Hall) as (i & Hi).
      exists i; exact Hi.
Qed.

Lemma runScenario_order (initialConcurrency : Q) (s : scenario)
    (ok : nat -> bool) (fuel : nat) :
  (0 < initialConcurrency)%Q -> (0 < weight s)%Q ->
  (length (queries s) <= fuel)%nat ->
  exists trace result,
    runScenario fuel initialConcurrency s ok = Some (trace, result) /\
    starts trace = firstn (length (starts trace)) (queries s) /\
    (result = Fulfilled ->
     starts trace = queries s /\
     forall i, (i < length (queries s))%nat -> ok i = true) /\
    (result = Rejected ->
     exists i, (i < length (starts trace))%nat /\ ok i = false) /\
    ((forall i, (i < length (queries s))%nat -> ok i = true) ->
     result = Fulfilled).
Proof.
  intros Hbase Hweight Hfuel.
  assert (Hchunk : exists batches,
             chunkArray fuel (queries s)
               (Z.min (Z.of_nat (length (queries s)))
                      (Qceiling (initialConcurrency * weight s)))
             = Some batches /\ concat batches = queries s).
  { destruct (queries s) as [|q qs] eqn:Hq.
    - exists []; split; [destruct fuel; reflexivity | reflexivity].
    - pose proof (ceiling_positive (initialConcurrency * weight s)
                    ltac:(nra)) as Hc.
      destruct (chunkArray_spec (q :: qs)
                  (Z.min (Z.of_nat (length (q :: qs)))
                         (Qceiling (initialConcurrency * weight s)))
                  fuel) as (batches & Hrun & Hcat & _);
        [cbn [length]; lia | exact Hfuel |].
      exists batches; split; assumption. }
  destruct Hchunk as (batches & Hrun & Hcat).
  destruct (runBatches_outcome ok batches O [])
    as (issued & later & result & Hloop & Hsplit & Hdone & Hrej).
  cbn [app] in Hloop.
  exists (issue issued), result.
  assert (Hpre : queries s = concat issued ++ concat later).
  { rewrite <- Hcat, Hsplit, concat_app; reflexivity. }
  rewrite starts_issue.
  split; [unfold runScenario; rewrite Hrun, Hloop; reflexivity|].
  split; [rewrite Hpre, firstn_app, Nat.sub_diag, firstn_all, firstn_O,
            app_nil_r; reflexivity|].
  assert (Hful : result = Fulfilled ->
                 concat issued = queries s /\
                 forall i, (i < length (queries s))%nat -> ok i = true).
  { intros Hres; destruct (Hdone Hres) as [Hl Hok]; subst later.
    cbn [concat] in Hpre; rewrite app_nil_r in Hpre.
    split; [congruence|].
    intros i Hi; apply Hok; rewrite <- Hpre; lia. }
  assert (Hfail : result = Rejected ->
                  exists i, (i < length (concat issued))%nat /\ ok i = false).
  { intros Hres; destruct (Hrej Hres) as (i & Hi & Hno).
    exists i; split; [lia | exact Hno]. }
  split; [exact Hful|]; split; [exact Hfail|].
  intros Hall; destruct result; [reflexivity|].
  destruct (Hfail eq_refl) as (i & Hi & Hno).
  rewrite Hall in Hno; [discriminate|].
  rewrite Hpre, length_app; lia.
Qed.

(** X8.  With a positive concurrency, [runScenario] starts the queries in
    their order, each at most once and without gaps; it completes exactly when
    every request it started was fulfilled, and then every query was
    started; it is rejected exactly when one of the started requests
    failed, and no request of a later batch is started. *)
Theorem requests_start_in_order (initialConcurrency : Q) (s : scenario)
    (ok : nat -> bool) (fuel : nat) :
  (0 < initialConcurrency)%Q -> (0 < weight s)%Q ->
  (length (queries s) <= fuel)%nat ->
  exists trace result,
    runScenario fuel initialConcurrency s ok = Some (trace, result) /\
    starts trace = firstn (length (starts trace)) (queries s) /\
    (result = Fulfilled ->
     starts trace = queries s /\
     forall i, (i < length (queries s))%nat -> ok i = true) /\
    (result = Rejected ->
     exists i, (i < length (starts trace))%nat /\ ok i = false) /\
    ((forall i, (i < length (queries s))%nat -> ok i = true) ->
     result = Fulfilled).
Proof. apply runScenario_order. Qed.

Lemma requests_start_in_order_witness :
  (0 < 1)%Q /\ (0 < weight fourQueries)%Q /\
  (length (queries fourQueries) <= 4)%nat /\
  exists trace,
    runScenario 4 1 fourQueries (fun i => negb (i =? 1)%nat)
    = Some (trace, Rejected) /\
    starts trace = firstn 2 (queries fourQueries).
Proof.
  assert (H0 : (0 < 1)%Q) by reflexivity.
  assert (H1 : (0 < weight fourQueries)%Q) by reflexivity.
  assert (H2 : (length (queries fourQueries) <= 4)%nat) by (simpl; lia).
  split; [exact H0|]; split; [exact H1|]; split; [exact H2|].
  destruct (requests_start_in_order 1 fourQueries
              (fun i => negb (i =? 1)%nat) 4 H0 H1 H2)
    as (trace & result & Hrun & Hpre & _).
  exists trace.
  assert (E : runScenario 4 1 fourQueries (fun i => negb (i =? 1)%nat)
              = Some (issue [[get "/blocks/1"; get "/blocks/2"]], Rejected))
    by reflexivity.
  rewrite E in Hrun; injection Hrun as <- <-.
  split; [exact E | exact Hpre].
Defined.

End ScenarioFacts.

(* ===================================================================== *)
(** * The progressive chain load test *)
(* ===================================================================== *)

Module ChainLoad.

Import Scenario ScenarioFacts.

Local Open Scope Z_scope.

(** [this.chainData] (lines 165-178).  A [Set] is the list of its elements
    in insertion order, the [Map] of blocks the list of its entries. *)
Record chainData := {
  latestHeight : option Z;
  blocks : list (Z * value);
  accounts : list string;
  contracts : list string;
  tokens : list string;
  transactions : list string;
  evm_accounts : list string;
  evm_contracts : list string;
  evm_tokens : list string
}.

Definition getQuery (path : string) : query :=
  {| endpoint := path; method := "GET"; data := None; params := None |}.

Definition rpcQuery (rpc : string) (args : list value) : query :=
  {| endpoint := "/"; method := "POST";
     data := Some (VObj [("jsonrpc"%string, VStr "2.0");
                         ("method"%string, VStr rpc);
                         ("params"%string, VArr args);
                         ("id"%string, VNum 1)]);
     params := None |}.

(** [generateComplexQueries()] (lines 410-453). *)
Definition generateComplexQueries (cd : chainData) : list query :=
  let cosmos :=
    if (0 <? length (contracts cd))%nat
    then {| endpoint := "/cosmwasm/wasm/v1/contracts"; method := "GET";
            data := None;
            params :=
              Some (VObj [("pagination"%string,
                           VObj [("limit"%string, VStr "50")])]) |}
         :: map (fun contract =>
                   getQuery ("/cosmwasm/wasm/v1/contract/" +:+ contract
                             +:+ "/state"))
                (contracts cd)
    else [] in
  let evm :=
    if (0 <? length (evm_accounts cd))%nat
    then map (fun account =>
                rpcQuery "eth_getBalance" [VStr account; VStr "latest"])
             (evm_accounts cd)
    else [] in
  cosmos ++ evm.

(** [generateTestScenarios()] (lines 342-408). *)
Definition generateTestScenarios (cd : chainData) : list scenario :=
  [ {| name := "basic-chain-queries"; weight := 1;
       queries := [ getQuery "/cosmos/base/tendermint/v1beta1/blocks/latest";
                    rpcQuery "eth_blockNumber" [] ] |};
    {| name := "block-queries"; weight := 2;
       queries :=
         map (fun height =>
                getQuery ("/cosmos/base/tendermint/v1beta1/blocks/"
                          +:+ Metrics.showZ height))
             (map fst (blocks cd)) |};
    {| name := "account-queries"; weight := 3;
       queries :=
         map (fun addr => getQuery ("/cosmos/auth/v1beta1/accounts/" +:+ addr))
             (accounts cd) |};
    {| name := "token-queries"; weight := 3;
       queries :=
         map (fun token =>
                getQuery ("/cosmos/bank/v1beta1/balances/" +:+ token))
             (tokens cd) |};
    {| name := "contract-queries"; weight := 4;
       queries :=
         map (fun contract =>
                getQuery ("/cosmwasm/wasm/v1/contract/" +:+ contract
                          +:+ "/state"))
             (contracts cd) |};
    {| name := "complex-mixed"; weight := 5;
       queries := generateComplexQueries cd |} ].

(** The loop of [runProgressiveLoadTests] (lines 335-339): the scenarios
    run one after the other; a rejected scenario makes [await] throw and
    ends the loop.  [oks k] tells which requests of the [k]-th scenario
    succeed. *)
Fixpoint runScenarios (fuel : nat) (initialConcurrency : Q) (k : nat)
    (scenarios : list scenario) (oks : nat -> nat -> bool)
    (trace : list event) : option (list event * completion) :=
  match scenarios with
  | [] => Some (trace, Fulfilled)
  | s :: rest =>
      match runScenario fuel initialConcurrency s (oks k) with
      | None => None
      | Some (tr, Rejected) => Some (trace ++ tr, Rejected)
      | Some (tr, Fulfilled) =>
          runScenarios fuel initialConcurrency (S k) rest oks (trace ++ tr)
      end
  end.

Definition runProgressiveLoadTests (fuel : nat) (initialConcurrency : Q)
    (cd : chainData) (oks : nat -> nat -> bool)
    : option (list event * completion) :=
  runScenarios fuel initialConcurrency 0 (generateTestScenarios cd) oks [].

(** All the queries of a list of scenarios, in order. *)
Definition allQueries (scenarios : list scenario) : list query :=
  concat (map queries scenarios).

(** The longest request list. *)
Definition longest (scenarios : list scenario) : nat :=
  fold_right (fun s acc => Nat.max (length (queries s)) acc) O scenarios.

Lemma runScenarios_order (fuel : nat) (initialConcurrency : Q)
    (oks : nat -> nat -> bool) (scenarios : list scenario) :
  (0 < initialConcurrency)%Q ->
  Forall (fun s => (0 < weight s)%Q) scenarios ->
  (longest scenarios <= fuel)%nat ->
  forall (k : nat) (trace0 : list event),
  exists trace result,
    runScenarios fuel initialConcurrency k scenarios oks trace0
    = Some (trace0 ++ trace, result) /\
    starts trace = firstn (length (starts trace)) (allQueries scenarios) /\
    (result = Fulfilled -> starts trace = allQueries scenarios) /\
    ((forall j i, oks j i = true) -> result = Fulfilled).
Proof.
  intros Hbase Hpos; induction Hpos as [|s rest Hs _ IH];
    intros Hfuel k trace0.
  - exists [], Fulfilled; cbn [runScenarios]; rewrite app_nil_r.
    repeat split; reflexivity.
  - cbn [longest fold_right] in Hfuel; fold (longest rest) in Hfuel.
    destruct (runScenario_order initialConcurrency s (oks k) fuel Hbase Hs)
      as (tr & res & Hrun & Hpre & Hful & _ & Hall); [lia|].
    cbn [runScenarios]; rewrite Hrun.
    unfold allQueries in *; cbn [map concat].
    assert (Hn : (length (starts tr) <= length (queries s))%nat).
    { rewrite Hpre at 1; rewrite length_firstn; lia. }
    destruct res.
    + destruct (IH ltac:(lia) (S k) (trace0 ++ tr))
        as (tr' & res' & Hrun' & Hpre' & Hful' & Hall').
      destruct (Hful eq_refl) as [Hq _].
      exists (tr ++ tr'), res'.
      rewrite Hrun', <- app_assoc, starts_app, Hq, length_app.
      split; [reflexivity|]; split; [|split].
      * rewrite firstn_app_2; f_equal; exact Hpre'.
      * intros Hres; f_equal; apply Hful'; exact Hres.
      * exact Hall'.
    + exists tr, Rejected; split; [reflexivity|]; split; [|split].
      * rewrite firstn_app.
        replace (length (starts tr) - length (queries s))%nat with O by lia.
        rewrite firstn_O, app_nil_r; exact Hpre.
      * discriminate.
      * intros Hok; apply Hall; intros i _; apply Hok.
Qed.

Lemma generated_weights_positive (cd : chainData) :
  Forall (fun s => (0 < weight s)%Q) (generateTestScenarios cd).
Proof. unfold generateTestScenarios; repeat constructor. Qed.

Lemma ceiling_nonpositive (x : Q) : (x <= 0)%Q -> Qceiling x <= 0.
Proof.
  intros Hx; pose proof (Qceiling_lt x) as Hc.
  assert (H : (inject_Z (Qceiling x - 1) < inject_Z 0)%Q)
    by (change (inject_Z 0) with 0%Q; lra).
  rewrite <- Zlt_Qlt in H; lia.
Qed.

(** X9.  The progressive load test over any discovered chain data.  With a
    positive [initialConcurrency] it terminates and starts the queries of
    the six scenarios in scenario order, each at most once; it starts all
    of them when no request is rejected, and a rejection ends the whole
    run, the remaining scenarios included.  With an
    [initialConcurrency] that is not positive it never starts a request:
    the first scenario always has two queries and its [chunkArray] loop
    does not advance. *)
Theorem progressive_run (fuel : nat) (initialConcurrency : Q)
    (cd : chainData) (oks : nat -> nat -> bool) :
  ((0 < initialConcurrency)%Q ->
   (longest (generateTestScenarios cd) <= fuel)%nat ->
   exists trace result,
     runProgressiveLoadTests fuel initialConcurrency cd oks
     = Some (trace, result) /\
     starts trace
     = firstn (length (starts trace)) (allQueries (generateTestScenarios cd))
     /\
     (result = Fulfilled ->
      starts trace = allQueries (generateTestScenarios cd)) /\
     ((forall j i, oks j i = true) -> result = Fulfilled)) /\
  ((initialConcurrency <= 0)%Q ->
   runProgressiveLoadTests fuel initialConcurrency cd oks = None).
Proof.
  split.
  - intros Hbase Hfuel.
    destruct (runScenarios_order fuel initialConcurrency oks
                (generateTestScenarios cd) Hbase
                (generated_weights_positive cd) Hfuel O [])
      as (trace & result & Hrun & H).
    exists trace, result; split; [exact Hrun | exact H].
  - intros Hbase; unfold runProgressiveLoadTests, generateTestScenarios.
    cbn [runScenarios].
    rewrite runScenario_needs_positive_concurrency; [reflexivity | |].
    + apply ceiling_nonpositive; cbn [weight]; lra.
    + discriminate.
Qed.

(** A chain on which discovery found two blocks and one EVM account. *)
Definition smallChain : chainData :=
  {| latestHeight := Some 101;
     blocks := [(101, VNull); (100, VNull)];
     accounts := []; contracts := []; tokens := []; transactions := [];
     evm_accounts := ["0xabc"%string]; evm_contracts := [];
     evm_tokens := [] |}.

Lemma progressive_run_witness :
  (0 < 5)%Q /\ (longest (generateTestScenarios smallChain) <= 2)%nat /\
  (0 <= 0)%Q /\
  (exists trace,
      runProgressiveLoadTests 2 5 smallChain (fun _ _ => true)
      = Some (trace, Fulfilled) /\
      length (starts trace) = 5%nat) /\
  runProgressiveLoadTests 2 0 smallChain (fun _ _ => true) = None.
Proof.
  assert (H0 : (0 < 5)%Q) by reflexivity.
  assert (H1 : (longest (generateTestScenarios smallChain) <= 2)%nat)
    by (vm_compute; lia).
  assert (H2 : (0 <= 0)%Q) by (unfold Qle; simpl; lia).
  split; [exact H0|]; split; [exact H1|]; split; [exact H2|].
  destruct (progressive_run 2 5 smallChain (fun _ _ => true)) as [Hrun _].
  destruct (Hrun H0 H1) as (trace & result & Hr & _ & Hful & Hall).
  pose proof (Hall (fun _ _ => eq_refl)) as ->.
  split.
  - exists trace; split; [exact Hr|].
    rewrite (Hful eq_refl); reflexivity.
  - exact (proj2 (progressive_run 2 0 smallChain (fun _ _ => true)) H2).
Defined.

(** ** Request metrics of the chain load tester *)

(** The two tables of [this.metrics] that [recordMetrics] writes, as maps
    from the key to the count and to the latencies. *)
Record loadMetrics := {
  requestsByType : gmap string Z;
  latenciesByType : gmap string (list Z)
}.

Definition noMetrics : loadMetrics :=
  {| requestsByType := ∅; latenciesByType := ∅ |}.

(** [`${type}-${endpoint}`]. *)
Definition metricKey (type endpoint : string) : string :=
  type +:+ "-" +:+ endpoint.

(** [recordMetrics(type, endpoint, duration)] (lines 547-552). *)
Definition recordMetrics (m : loadMetrics) (type endpoint : string)
    (duration : Z) : loadMetrics :=
  let key := metricKey type endpoint in
  {| requestsByType :=
       <[key := Metrics.or0 (requestsByType m !! key) + 1]> (requestsByType m);
     latenciesByType :=
       <[key := default [] (latenciesByType m !! key) ++ [duration]]>
         (latenciesByType m) |}.

(** A request made through [makeRequest] (lines 468-485): its query,
    whether [axios] resolved, and the two readings of [Date.now()]. *)
Record request := {
  r_query : query;
  r_resolved : bool;
  r_start : Z;
  r_end : Z
}.

Definition typeName (resolved : bool) : string :=
  if resolved then "success"%string else "error"%string.

Definition makeRequest (m : loadMetrics) (r : request)
    : loadMetrics * completion :=
  (recordMetrics m (typeName (r_resolved r)) (endpoint (r_query r))
                 (r_end r - r_start r),
   if r_resolved r then Fulfilled else Rejected).

Definition makeRequests (m : loadMetrics) (log : list request) : loadMetrics :=
  fold_left (fun m r => fst (makeRequest m r)) log m.

(** Durations, in order, of the requests to an endpoint that resolved
    ([resolved = true]) or were rejected. *)
Fixpoint durationsBy (resolved : bool) (e : string) (log : list request)
    : list Z :=
  match log with
  | [] => []
  | r :: rest =>
      if bool_decide (r_resolved r = resolved /\ endpoint (r_query r) = e)
      then (r_end r - r_start r) :: durationsBy resolved e rest
      else durationsBy resolved e rest
  end.

Lemma metricKey_inj (b b' : bool) (e e' : string) :
  metricKey (typeName b) e = metricKey (typeName b') e' -> b = b' /\ e = e'.
Proof.
  destruct b, b'; unfold metricKey, typeName; simpl; intros H;
    try discriminate H; injection H as H; simpl in H.
  - split; [reflexivity | exact H].
  - split; [reflexivity | exact H].
Qed.

Lemma makeRequests_lookup (log : list request) :
  forall (m : loadMetrics) (b : bool) (e : string),
    let key := metricKey (typeName b) e in
    requestsByType (makeRequests m log) !! key
    = match durationsBy b e log with
      | [] => requestsByType m !! key
      | ds => Some (Metrics.or0 (requestsByType m !! key)
                    + Z.of_nat (length ds))
      end /\
    latenciesByType (makeRequests m log) !! key
    = match durationsBy b e log with
      | [] => latenciesByType m !! key
      | ds => Some (default [] (latenciesByType m !! key) ++ ds)
      end.
Proof.
  induction log as [|r log IH]; intros m b e key; [split; reflexivity|].
  change (makeRequests m (r :: log))
    with (makeRequests (fst (makeRequest m r)) log).
  destruct (IH (fst (makeRequest m r)) b e) as [IHc IHl]; fold key in IHc, IHl.
  rewrite IHc, IHl; cbn [durationsBy makeRequest fst recordMetrics
                           requestsByType latenciesByType].
  rewrite !lookup_insert.
  destruct (decide (metricKey (typeName (r_resolved r))
                              (endpoint (r_query r)) = key)) as [Hk|Hk].
  - destruct (metricKey_inj _ _ _ _ Hk) as [Hb He].
    rewrite bool_decide_eq_true_2 by (split; assumption).
    fold key; rewrite <- Hk.
    destruct (durationsBy b e log); rewrite ?Metrics.or0_Some;
      unfold default; cbn [from_option id length];
      rewrite <- ?app_assoc; split; f_equal; lia.
  - rewrite bool_decide_eq_false_2; [split; reflexivity|].
    intros [Hb He]; apply Hk; subst key; rewrite Hb, He; reflexivity.
Qed.

Lemma durationsBy_split (log : list request) (e : string) :
  (length (durationsBy true e log) + length (durationsBy false e log)
   = length (List.filter (fun r => String.eqb (endpoint (r_query r)) e)
                         log))%nat.
Proof.
  induction log as [|r log IH]; [reflexivity|].
  cbn [durationsBy List.filter].
  destruct (String.eqb_spec (endpoint (r_query r)) e) as [He|He].
  - destruct (r_resolved r).
    + rewrite bool_decide_eq_true_2 by (split; [reflexivity | exact He]).
      rewrite bool_decide_eq_false_2 by (intros [H _]; discriminate H).
      cbn [length]; lia.
    + rewrite bool_decide_eq_false_2 by (intros [H _]; discriminate H).
      rewrite bool_decide_eq_true_2 by (split; [reflexivity | exact He]).
      cbn [length]; lia.
  - rewrite !bool_decide_eq_false_2 by (intros [_ H]; exact (He H)).
    exact IH.
Qed.

(** X10.  Every request made through [makeRequest] is recorded exactly
    once,
    under [success-<endpoint>] when it resolved and under
    [error-<endpoint>] when it was rejected; the two keys never coincide,
    each count is the length of the latency list kept under the same key,
    and the two counts of an endpoint add up to the number of requests
    made to it. *)
Theorem requests_recorded_once (log : list request) (e : string) :
  let m := makeRequests noMetrics log in
  let count b := Metrics.or0 (requestsByType m !! metricKey (typeName b) e) in
  let lats b := default [] (latenciesByType m !! metricKey (typeName b) e) in
  lats true = durationsBy true e log /\
  lats false = durationsBy false e log /\
  count true = Z.of_nat (length (lats true)) /\
  count false = Z.of_nat (length (lats false)) /\
  count true + count false
  = Z.of_nat (length (List.filter
                        (fun r => String.eqb (endpoint (r_query r)) e) log)).
Proof.
  cbv zeta.
  destruct (makeRequests_lookup log noMetrics true e) as [Hc1 Hl1].
  destruct (makeRequests_lookup log noMetrics false e) as [Hc0 Hl0].
  cbv zeta in *; rewrite Hc1, Hl1, Hc0, Hl0.
  cbn [noMetrics requestsByType latenciesByType]; rewrite !lookup_empty.
  pose proof (durationsBy_split log e) as Hsplit.
  destruct (durationsBy true e log), (durationsBy false e log);
    rewrite ?Metrics.or0_Some; cbn [Metrics.or0 default from_option id];
    cbn [length] in *; repeat split; try reflexivity; lia.
Qed.

End ChainLoad.

(* ===================================================================== *)
(** * The metric collector: rate-limit window, snapshots and report *)
(* ===================================================================== *)

Module MetricsFacts.

Import Metrics.

Local Open Scope Z_scope.

(** ** The rate-limit counter and window *)

Lemma hits_recordAll (calls : list call) :
  forall m : metrics,
    hits (rateLimit (recordAll m calls))
    = hits (rateLimit m) + Z.of_nat (length (limitedTimes calls)).
Proof.
  induction calls as [|c calls IH]; intros m.
  - cbn; lia.
  - rewrite recordAll_cons, IH; cbn [limitedTimes].
    cbn [recordCall recordRequest rateLimit].
    destruct (rateLimited (c_data c)); cbn [hits length]; lia.
Qed.

Lemma filter_length_le {A : Type} (f : A -> bool) (l : list A) :
  (length (List.filter f l) <= length l)%nat.
Proof.
  induction l as [|x l IH]; [reflexivity|].
  cbn [List.filter]; destruct (f x); cbn [length]; lia.
Qed.

Lemma filter_length_mono {A : Type} (f g : A -> bool) (l : list A) :
  (forall x, f x = true -> g x = true) ->
  (length (List.filter f l) <= length (List.filter g l))%nat.
Proof.
  intros Hfg; induction l as [|x l IH]; [reflexivity|].
  cbn [List.filter]; destruct (f x) eqn:Hf.
  - rewrite (Hfg x Hf); cbn [length]; lia.
  - destruct (g x); cbn [length]; lia.
Qed.

(** X11.  After any sequence of calls on a new collector, [rateLimit.hits]
    is the number of stored rate-limit time stamps, one per rate-limited call;
    [getRecentRateLimitHits] never exceeds it, whatever the time and the
    window, and a wider window never counts fewer hits. *)
Theorem recent_hits_bounded (calls : list call) (now w w' : Z) :
  let m := recordAll initial calls in
  hits (rateLimit m) = Z.of_nat (length (rl_timestamps (rateLimit m))) /\
  rl_timestamps (rateLimit m) = limitedTimes calls /\
  0 <= getRecentRateLimitHits m now w <= hits (rateLimit m) /\
  (w <= w' ->
   getRecentRateLimitHits m now w <= getRecentRateLimitHits m now w').
Proof.
  cbv zeta; rewrite hits_recordAll.
  unfold getRecentRateLimitHits; rewrite rateLimit_recordAll.
  cbn [initial rateLimit hits rl_timestamps app].
  pose proof (filter_length_le (fun ts => now - ts <=? w)
                               (limitedTimes calls)) as Hle.
  repeat split; try lia.
  intros Hw; apply Nat2Z.inj_le, filter_length_mono.
  intros ts Hts; apply Z.leb_le in Hts; apply Z.leb_le; lia.
Qed.

Lemma recent_hits_bounded_witness :
  0 <= 60000 /\
  getRecentRateLimitHits (recordAll initial sampleCalls) 2000 0
  <= getRecentRateLimitHits (recordAll initial sampleCalls) 2000 60000.
Proof.
  assert (H : 0 <= 60000) by lia.
  split; [exact H|].
  exact (proj2 (proj2 (proj2 (recent_hits_bounded sampleCalls 2000 0 60000)))
           H).
Defined.

(** The rate-limited calls whose time stamp [ts] satisfies
    [now - ts <= 60000]. *)
Definition limitedInWindow (calls : list call) (now : Z) : nat :=
  length (List.filter
            (fun c => rateLimited (c_data c) && (now - c_now' c <=? 60000))
            calls).

Lemma limitedInWindow_filter (calls : list call) (now : Z) :
  limitedInWindow calls now
  = length (List.filter (fun ts => now - ts <=? 60000) (limitedTimes calls)).
Proof.
  unfold limitedInWindow; induction calls as [|c calls IH]; [reflexivity|].
  cbn [List.filter limitedTimes].
  destruct (rateLimited (c_data c)); cbn [andb List.filter]; [|exact IH].
  destruct (now - c_now' c <=? 60000); cbn [length]; congruence.
Qed.

Lemma limitedInWindow_expired (calls : list call) (now : Z) :
  Forall (fun c => rateLimited (c_data c) = true -> c_now' c < now - 60000)
         calls ->
  limitedInWindow calls now = O.
Proof.
  unfold limitedInWindow; induction 1 as [|c calls Hc _ IH]; [reflexivity|].
  cbn [List.filter].
  destruct (rateLimited (c_data c)); cbn [andb]; [|exact IH].
  specialize (Hc eq_refl).
  destruct (Z.leb_spec (now - c_now' c) 60000); [lia | exact IH].
Qed.

(** X12.  The cooldown is exact: at a check at time [now] the worker waits
    1000 units exactly when more than 10 rate-limited calls are on record with
    [now - ts <= 60000]; with 10 or fewer it pulls its next request at
    once.  In particular the throttle is released once every recorded
    rate-limit time stamp is more than 60000 units old. *)
Theorem cooldown_exact (calls : list call) (now lag : Z) :
  let m := recordAll initial calls in
  getRecentRateLimitHits m now 60000
  = Z.of_nat (limitedInWindow calls now) /\
  cooldownDelay m now
  = (if (10 <? limitedInWindow calls now)%nat then 1000 else 0) /\
  ((limitedInWindow calls now <= 10)%nat -> nextPull m now lag = now) /\
  (Forall (fun c => rateLimited (c_data c) = true -> c_now' c < now - 60000)
          calls ->
   nextPull m now lag = now).
Proof.
  cbv zeta.
  assert (Hrecent : getRecentRateLimitHits (recordAll initial calls) now 60000
                    = Z.of_nat (limitedInWindow calls now)).
  { unfold getRecentRateLimitHits; rewrite rateLimit_recordAll.
    cbn [initial rateLimit rl_timestamps app].
    rewrite limitedInWindow_filter; reflexivity. }
  unfold cooldownDelay, nextPull; rewrite Hrecent.
  split; [reflexivity|]; split; [|split].
  - destruct (Z.ltb_spec 10 (Z.of_nat (limitedInWindow calls now)));
      destruct (Nat.ltb_spec 10 (limitedInWindow calls now));
      try reflexivity; lia.
  - intros Hfew.
    destruct (Z.ltb_spec 10 (Z.of_nat (limitedInWindow calls now)));
      [lia | reflexivity].
  - intros Hold.
    rewrite (limitedInWindow_expired calls now Hold); reflexivity.
Qed.

Lemma cooldown_exact_witness :
  let calls :=
    map (fun i => mkCall i "eth_call" 10 false true (1000 + Z.of_nat i))
        (seq 0 12) in
  Forall (fun c => rateLimited (c_data c) = true -> c_now' c < 70000 - 60000)
         calls /\
  nextPull (recordAll initial calls) 70000 5 = 70000 /\
  cooldownDelay (recordAll initial calls) 60000 = 1000.
Proof.
  intros calls.
  assert (H : Forall (fun c => rateLimited (c_data c) = true ->
                               c_now' c < 70000 - 60000) calls).
  { unfold calls; cbn [seq map]; repeat constructor. }
  split; [exact H|]; split.
  - exact (proj2 (proj2 (proj2 (cooldown_exact calls 70000 5))) H).
  - rewrite (proj1 (proj2 (cooldown_exact calls 60000 0))); reflexivity.
Defined.

(** ** Snapshots and the final report *)

Record snapshot := {
  s_timestamp : Z;
  s_requestCounts : gmap string Z;
  s_errorRates : gmap string string;
  s_averageLatencies : gmap string Z;
  s_total : Z;
  s_recentHits : Z
}.

(** The collector object: [this.metrics], [this.snapshots] and
    [this.startTime]. *)
Record collector := {
  c_metrics : metrics;
  snapshots : list snapshot;
  startTime : Z
}.

(** The constructor (lines 598-612); [now] is [Date.now()]. *)
Definition newCollector (now : Z) : collector :=
  {| c_metrics := initial; snapshots := []; startTime := now |}.

Record endpointReport := {
  e_endpoint : string;
  e_requests : option Z;
  e_errors : Z;
  e_averageLatency : option Z;
  e_errorRate : option string
}.

Record report := {
  r_duration : Z;
  r_totalRequests : Z;
  r_endpoints : list endpointReport;
  r_totalHits : Z;
  r_timeline : list Z;
  r_snapshots : list snapshot
}.

(** What is done to a collector: a call to [recordRequest] or to
    [takeSnapshot]. *)
Inductive operation : Type :=
  | Record_ (c : call)
  | Snapshot_ (now now' : Z).

Fixpoint callsOf (ops : list operation) : list call :=
  match ops with
  | [] => []
  | Record_ c :: rest => c :: callsOf rest
  | Snapshot_ _ _ :: rest => callsOf rest
  end.

Fixpoint snapshotsIn (ops : list operation) : nat :=
  match ops with
  | [] => O
  | Record_ _ :: rest => snapshotsIn rest
  | Snapshot_ _ _ :: rest => S (snapshotsIn rest)
  end.

(** [keys] lists the keys of the map, each once: what iterating over a
    [Map] yields, in some order. *)
Definition enumerates {V : Type} (keys : list string) (map : gmap string V)
    : Prop :=
  NoDup keys /\ forall k, In k keys <-> is_Some (map !! k).

Section Reports.

Variable fdiv : Z -> Z -> Q.
Variable fmul : Q -> Q -> Q.
Variable toFixed : Q -> Z -> string.

(** [takeSnapshot()] (lines 648-664); [now] and [now'] are the values of
    [Date.now()] for the time stamp and inside
    [getRecentRateLimitHits]. *)
Definition takeSnapshot (col : collector) (now now' : Z)
    : collector * snapshot :=
  let m := c_metrics col in
  let snap :=
    {| s_timestamp := now;
       s_requestCounts := requestCounts m;
       s_errorRates := calculateErrorRates fdiv fmul toFixed m;
       s_averageLatencies := calculateAverageLatencies fdiv m;
       s_total := hits (rateLimit m);
       s_recentHits := getRecentRateLimitHits m now' 60000 |} in
  ({| c_metrics := m; snapshots := snapshots col ++ [snap];
      startTime := startTime col |}, snap).

Definition step (col : collector) (op : operation) : collector :=
  match op with
  | Record_ c =>
      {| c_metrics := recordCall (c_metrics col) c;
         snapshots := snapshots col; startTime := startTime col |}
  | Snapshot_ now now' => fst (takeSnapshot col now now')
  end.

Definition run (col : collector) (ops : list operation) : collector :=
  fold_left step ops col.

(** The report built by [saveMetrics()] (lines 693-716), before it is
    written to the file.  [keys] is the iteration order of the
    [requestCounts] map, which [Array.from(...keys())] and
    [Array.from(...values())] both follow; [now] is [Date.now()]. *)
Definition saveMetrics (col : collector) (keys : list string) (now : Z)
    : report :=
  let m := c_metrics col in
  {| r_duration := now - startTime col;
     r_totalRequests :=
       fold_left js_add (omap (fun k => requestCounts m !! k) keys) 0;
     r_endpoints :=
       map (fun endpoint =>
              {| e_endpoint := endpoint;
                 e_requests := requestCounts m !! endpoint;
                 e_errors := or0 (errors m !! endpoint);
                 e_averageLatency :=
                   calculateAverageLatencies fdiv m !! endpoint;
                 e_errorRate :=
                   calculateErrorRates fdiv fmul toFixed m !! endpoint |})
           keys;
     r_totalHits := hits (rateLimit m);
     r_timeline := rl_timestamps (rateLimit m);
     r_snapshots := snapshots col |}.

Lemma run_app (col : collector) (ops1 ops2 : list operation) :
  run col (ops1 ++ ops2) = run (run col ops1) ops2.
Proof. unfold run; apply fold_left_app. Qed.

Lemma run_metrics (ops : list operation) :
  forall col : collector,
    c_metrics (run col ops) = recordAll (c_metrics col) (callsOf ops) /\
    startTime (run col ops) = startTime col /\
    exists later,
      snapshots (run col ops) = snapshots col ++ later /\
      length later = snapshotsIn ops /\
      Forall (fun snap =>
                exists done,
                  s_requestCounts snap
                  = requestCounts (recordAll (c_metrics col) done) /\
                  s_total snap
                  = hits (rateLimit (recordAll (c_metrics col) done)) /\
                  exists t,
                    s_recentHits snap
                    = getRecentRateLimitHits
                        (recordAll (c_metrics col) done) t 60000)
             later.
Proof.
  induction ops as [|[c|now now'] ops IH]; intros col.
  - repeat split; exists []; rewrite app_nil_r; repeat split; constructor.
  - destruct (IH (step col (Record_ c)))
      as (Hm & Hs & later & Hsnap & Hlen & Hall).
    change (run col (Record_ c :: ops)) with (run (step col (Record_ c)) ops).
    cbn [callsOf snapshotsIn]; rewrite Hm, Hs, Hsnap.
    cbn [step c_metrics startTime snapshots] in *.
    repeat split; exists later; repeat split; [exact Hlen|].
    eapply Forall_impl; [exact Hall|].
    intros snap (done & H1 & H2 & t & H3); exists (c :: done).
    rewrite recordAll_cons; repeat split; try assumption.
    exists t; exact H3.
  - destruct (IH (step col (Snapshot_ now now')))
      as (Hm & Hs & later & Hsnap & Hlen & Hall).
    change (run col (Snapshot_ now now' :: ops))
      with (run (step col (Snapshot_ now now')) ops).
    cbn [callsOf snapshotsIn]; rewrite Hm, Hs, Hsnap.
    cbn [step takeSnapshot fst c_metrics startTime snapshots] in *.
    repeat split.
    eexists; rewrite <- app_assoc; split; [reflexivity|].
    cbn [app length]; split; [f_equal; exact Hlen|].
    constructor; [|exact Hall].
    exists []; cbn [s_requestCounts s_total s_recentHits].
    repeat split; exists now'; reflexivity.
Qed.

Lemma callsOf_app (ops1 ops2 : list operation) :
  callsOf (ops1 ++ ops2) = callsOf ops1 ++ callsOf ops2.
Proof.
  induction ops1 as [|[c|now now'] ops1 IH]; cbn [app callsOf];
    rewrite ?IH; reflexivity.
Qed.

Lemma snapshotsIn_app (ops1 ops2 : list operation) :
  snapshotsIn (ops1 ++ ops2) = (snapshotsIn ops1 + snapshotsIn ops2)%nat.
Proof.
  induction ops1 as [|[c|now now'] ops1 IH]; cbn [app snapshotsIn];
    rewrite ?IH; reflexivity.
Qed.

Lemma recent_within_hits (calls : list call) (now w : Z) :
  0 <= getRecentRateLimitHits (recordAll initial calls) now w
    <= hits (rateLimit (recordAll initial calls)).
Proof.
  rewrite hits_recordAll; unfold getRecentRateLimitHits.
  rewrite rateLimit_recordAll; cbn [initial rateLimit hits rl_timestamps app].
  pose proof (filter_length_le (fun ts => now - ts <=? w)
                               (limitedTimes calls)).
  lia.
Qed.

(** X13.  Taking snapshots never disturbs the metrics, and the snapshot
    history only grows: after any mix of [recordRequest] and [takeSnapshot] calls
    on a new collector the metrics are those of the [recordRequest] calls
    alone, the history holds one snapshot per [takeSnapshot] call, the
    snapshots taken earlier are still its first entries, and every
    snapshot reports no more recent hits than total hits. *)
Theorem snapshots_append_only (start : Z) (ops1 ops2 : list operation) :
  let col1 := run (newCollector start) ops1 in
  let col2 := run col1 ops2 in
  c_metrics col2 = recordAll initial (callsOf (ops1 ++ ops2)) /\
  (exists later,
      snapshots col2 = snapshots col1 ++ later /\
      length later = snapshotsIn ops2) /\
  length (snapshots col2) = snapshotsIn (ops1 ++ ops2) /\
  Forall (fun snap => 0 <= s_recentHits snap <= s_total snap)
         (snapshots col2) /\
  startTime col2 = start.
Proof.
  cbv zeta; rewrite <- run_app.
  destruct (run_metrics (ops1 ++ ops2) (newCollector start))
    as (Hm & Hs & all & Hsnap & Hlen & Hall).
  destruct (run_metrics ops2 (run (newCollector start) ops1))
    as (_ & _ & later & Hsnap2 & Hlen2 & _).
  rewrite <- run_app in Hsnap2.
  cbn [newCollector c_metrics snapshots startTime app] in *.
  split; [exact Hm|]; split; [exists later; split; assumption|].
  split; [rewrite Hsnap; exact Hlen|]; split; [|exact Hs].
  rewrite Hsnap; eapply Forall_impl; [exact Hall|].
  intros snap (done & _ & Htot & t & Hrec); rewrite Htot, Hrec.
  apply recent_within_hits.
Qed.

(** ** The report *)

Lemma count_lookup (calls : list call) (k : string) :
  requestCounts (recordAll initial calls) !! k
  = match durationsOf k (map eventOf calls) with
    | [] => None
    | ds => Some (Z.of_nat (length ds))
    end.
Proof.
  rewrite requestCounts_recordAll; cbn [initial requestCounts].
  rewrite lookup_empty.
  destruct (durationsOf k (map eventOf calls)); reflexivity.
Qed.

Lemma sumZ_map_add {A : Type} (f g : A -> Z) (l : list A) :
  sumZ (map (fun x => f x + g x) l) = sumZ (map f l) + sumZ (map g l).
Proof.
  induction l as [|x l IH]; [reflexivity|].
  cbn [map]; rewrite !sumZ_cons, IH; lia.
Qed.

Lemma sumZ_indicator_absent (e : string) (keys : list string) :
  ~ In e keys ->
  sumZ (map (fun k => if decide (e = k) then 1 else 0) keys) = 0.
Proof.
  induction keys as [|k keys IH]; intros Hn; [reflexivity|].
  cbn [map]; rewrite sumZ_cons, IH by (intros H; apply Hn; right; exact H).
  destruct (decide (e = k)) as [->|]; [|lia].
  exfalso; apply Hn; left; reflexivity.
Qed.

Lemma sumZ_indicator (e : string) (keys : list string) :
  NoDup keys -> In e keys ->
  sumZ (map (fun k => if decide (e = k) then 1 else 0) keys) = 1.
Proof.
  induction 1 as [|k keys Hk _ IH]; intros Hin; [destruct Hin|].
  cbn [map]; rewrite sumZ_cons.
  destruct (decide (e = k)) as [->|Hne].
  - rewrite sumZ_indicator_absent; [lia|].
    intros H; apply Hk, list_elem_of_In; exact H.
  - destruct Hin as [->|Hin]; [congruence|].
    rewrite IH by exact Hin; lia.
Qed.

Lemma counts_add_up (keys : list string) (events : list requestEvent) :
  NoDup keys ->
  Forall (fun ev : requestEvent => In (fst (fst ev)) keys) events ->
  sumZ (map (fun k => Z.of_nat (length (durationsOf k events))) keys)
  = Z.of_nat (length events).
Proof.
  intros Hnd; induction 1 as [|[[e d] ok] events Hin _ IH].
  - cbn [durationsOf length]; induction keys; [reflexivity|].
    cbn [map]; rewrite sumZ_cons; inversion Hnd; subst; auto.
  - cbn [fst] in Hin.
    rewrite (map_ext _ (fun k => (if decide (e = k) then 1 else 0)
                                 + Z.of_nat (length (durationsOf k events)))).
    + rewrite sumZ_map_add, IH, sumZ_indicator by assumption.
      cbn [length]; lia.
    + intros k; cbn [durationsOf].
      destruct (decide (e = k)); cbn [length]; lia.
Qed.

Lemma sumZ_nonneg_abs (l : list Z) :
  Forall (fun z => 0 <= z) l -> map Z.abs l = l.
Proof.
  induction 1 as [|z l Hz _ IH]; [reflexivity|].
  cbn [map]; rewrite IH, Z.abs_eq by exact Hz; reflexivity.
Qed.

(** X14.  The report of [saveMetrics] after any mix of [recordRequest] and
    [takeSnapshot] calls on a new collector, for up to [2^53] recorded
    requests: whatever the iteration order of the map, [totalRequests] is
    the number of [recordRequest] calls, [rateLimit.totalHits] is the
    length of the time line, and the report has one entry per endpoint
    called, each with a positive count, an error count no larger than the
    count, and a defined average latency and error rate. *)
Theorem report_totals (start now : Z) (ops : list operation)
    (keys : list string) :
  let col := run (newCollector start) ops in
  let rep := saveMetrics col keys now in
  enumerates keys (requestCounts (c_metrics col)) ->
  Z.of_nat (length (callsOf ops)) <= 2 ^ 53 ->
  r_totalRequests rep = Z.of_nat (length (callsOf ops)) /\
  r_totalHits rep = Z.of_nat (length (r_timeline rep)) /\
  map e_endpoint (r_endpoints rep) = keys /\
  (forall k, In k keys <-> In k (map c_endpoint (callsOf ops))) /\
  Forall (fun e =>
            exists count avg rate,
              e_requests e = Some count /\ 0 < count /\
              0 <= e_errors e <= count /\
              e_averageLatency e = Some avg /\
              e_errorRate e = Some rate)
         (r_endpoints rep) /\
  r_snapshots rep = snapshots col /\
  r_duration rep = now - start.
Proof.
  cbv zeta; intros [Hnd Hkeys] Hbound.
  destruct (run_metrics ops (newCollector start)) as (Hm & Hs & _).
  cbn [newCollector c_metrics startTime] in Hm, Hs.
  set (calls := callsOf ops) in *.
  unfold saveMetrics; cbn [r_totalRequests r_totalHits r_timeline r_endpoints
                             r_snapshots r_duration].
  rewrite Hm in *; rewrite Hs.
  assert (Hin : forall k, In k keys <-> In k (map c_endpoint calls)).
  { intros k; rewrite Hkeys, count_lookup.
    clear; induction calls as [|c calls IH]; cbn [map durationsOf eventOf].
    - split; [intros [? H]; discriminate H | intros []].
    - destruct (decide (c_endpoint c = k)) as [->|Hne].
      + split; [left; reflexivity | intros _; eexists; reflexivity].
      + rewrite IH; cbn [In]; split; [auto | intros [H|H]; congruence]. }
  assert (Hvals : omap (fun k => requestCounts (recordAll initial calls) !! k)
                       keys
                  = map (fun k => Z.of_nat
                                    (length (durationsOf k (map eventOf calls))))
                        keys).
  { assert (Hall : Forall (fun k => is_Some
                             (requestCounts (recordAll initial calls) !! k))
                          keys)
      by (apply Forall_forall; intros k Hk;
          apply Hkeys, list_elem_of_In; exact Hk).
    clear -Hall; induction Hall as [|k keys [v Hv] _ IH]; [reflexivity|].
    cbn [omap list_omap map]; fold (omap (M := list)
      (fun k => requestCounts (recordAll initial calls) !! k) keys).
    rewrite Hv, IH; f_equal.
    rewrite count_lookup in Hv.
    destruct (durationsOf k (map eventOf calls)); congruence. }
  assert (Hsum : sumZ (map (fun k => Z.of_nat
                                       (length (durationsOf k
                                                  (map eventOf calls))))
                           keys)
                 = Z.of_nat (length calls)).
  { rewrite counts_add_up; [rewrite length_map; reflexivity | exact Hnd |].
    apply Forall_forall; intros [[e d] ok] Hev; cbn [fst].
    apply list_elem_of_In in Hev.
    apply Hin; apply in_map_iff in Hev; destruct Hev as (c & Hc & Hcin).
    apply in_map_iff; exists c; split; [|exact Hcin].
    unfold eventOf in Hc; congruence. }
  split.
  { rewrite Hvals, fold_js_add_exact.
    - rewrite Hsum; lia.
    - rewrite sumZ_nonneg_abs; [rewrite Hsum; cbn; lia|].
      apply Forall_forall; intros z Hz.
      apply list_elem_of_In, in_map_iff in Hz.
      destruct Hz as (k & <- & _); lia. }
  split.
  { rewrite hits_recordAll, rateLimit_recordAll.
    cbn [initial rateLimit hits rl_timestamps app]; lia. }
  split.
  { rewrite map_map; cbn [e_endpoint]; apply map_id. }
  split; [exact Hin|]; split; [|split; reflexivity].
  apply Forall_forall; intros e He.
  apply list_elem_of_In, in_map_iff in He.
  destruct He as (k & <- & Hk); cbn [e_requests e_errors e_averageLatency
                                      e_errorRate].
  apply Hkeys in Hk; destruct Hk as [count Hcount].
  pose proof Hcount as Hc; rewrite count_lookup in Hc.
  rewrite errorRate_lookup, Hcount, averageLatency_of_run, errors_of_run.
  pose proof (failuresOf_le k (map eventOf calls)) as Hle.
  destruct (durationsOf k (map eventOf calls)) as [|d ds]; [discriminate|].
  injection Hc as <-; cbn [length] in *.
  eexists _, _, _; repeat split; lia.
Qed.

End Reports.

(** The sample calls with a snapshot taken after the first. *)
Definition sampleOps : list operation :=
  [ Record_ (mkCall 0 "eth_call" 120 true false 1000);
    Snapshot_ 1005 1005;
    Record_ (mkCall 1 "eth_call" 80 false true 1010);
    Record_ (mkCall 0 "block" 45 true false 1020) ].

Lemma sampleOps_keys :
  enumerates ["eth_call"; "block"]%string
    (requestCounts
       (c_metrics (run exactDiv Qmult showFixed (newCollector 900)
                       sampleOps))).
Proof.
  split.
  - apply NoDup_cons; split; [|apply NoDup_singleton].
    intros H; apply list_elem_of_In in H; destruct H as [H|[]];
      discriminate H.
  - intros k.
    change (c_metrics (run exactDiv Qmult showFixed (newCollector 900)
                           sampleOps))
      with (recordAll initial (callsOf sampleOps)).
    rewrite count_lookup; cbn [callsOf sampleOps map eventOf durationsOf
                                 mkCall c_endpoint c_data duration success].
    destruct (decide ("eth_call"%string = k)) as [<-|H1];
      [split; [intros _; eexists; reflexivity | intros _; left; reflexivity]|].
    destruct (decide ("block"%string = k)) as [<-|H2].
    + split; [intros _; eexists; reflexivity
             | intros _; right; left; reflexivity].
    + split; [intros [H|[H|[]]]; congruence | intros [? H]; discriminate H].
Qed.

Lemma report_totals_witness :
  let rep :=
    saveMetrics exactDiv Qmult showFixed
      (run exactDiv Qmult showFixed (newCollector 900) sampleOps)
      ["eth_call"; "block"]%string 2000 in
  enumerates ["eth_call"; "block"]%string
    (requestCounts
       (c_metrics (run exactDiv Qmult showFixed (newCollector 900)
                       sampleOps))) /\
  Z.of_nat (length (callsOf sampleOps)) <= 2 ^ 53 /\
  r_totalRequests rep = 3 /\ r_duration rep = 1100.
Proof.
  intros rep.
  assert (H : Z.of_nat (length (callsOf sampleOps)) <= 2 ^ 53)
    by (vm_compute; discriminate).
  split; [exact sampleOps_keys|]; split; [exact H|].
  destruct (report_totals exactDiv Qmult showFixed 900 2000 sampleOps
              ["eth_call"; "block"]%string sampleOps_keys H)
    as (Htot & _ & _ & _ & _ & _ & Hdur).
  split; [exact Htot | exact Hdur].
Defined.

Lemma snapshots_append_only_witness :
  length (snapshots (run exactDiv Qmult showFixed (newCollector 900)
                         sampleOps)) = 1%nat.
Proof.
  destruct (snapshots_append_only exactDiv Qmult showFixed 900 [] sampleOps)
    as (_ & _ & Hlen & _).
  exact Hlen.
Defined.

End MetricsFacts.

(* ===================================================================== *)
(** * The core tester: request totals and observed patterns *)
(* ===================================================================== *)

Module CoreTester.

Import Fingerprint.

Local Open Scope Z_scope.

(** [this.metrics.requests]. *)
Record requestTotals := {
  total : Z;
  successful : Z;
  failed : Z
}.

(** What is kept of an error: [message], [code], [response?.data]. *)
Record errorInfo := {
  err_message : string;
  err_code : option string;
  err_response : option value
}.

Record storedResponse := {
  sr_timestamp : Z;
  sr_latency : Z;
  sr_data : value
}.

Record storedError := {
  se_timestamp : Z;
  se_latency : Z;
  se_error : errorInfo
}.

Record example := {
  ex_endpoint : string;
  ex_timestamp : Z;
  ex_data : value
}.

Record patternData := {
  pd_count : Z;
  pd_examples : list example
}.

(** The parts of a [CoreTester] that handling a request writes:
    [this.metrics] (lines 49-65) and [this.responses] (lines 21-25). *)
Record tester := {
  requests : requestTotals;
  latencies : list Z;
  patterns : gmap string Z;
  resp_successful : gmap string (list storedResponse);
  resp_failed : gmap string (list storedError);
  resp_patterns : gmap string patternData
}.

(** The state after the constructor. *)
Definition setup : tester :=
  {| requests := {| total := 0; successful := 0; failed := 0 |};
     latencies := []; patterns := ∅;
     resp_successful := ∅; resp_failed := ∅; resp_patterns := ∅ |}.

(** [analyzeResponse(endpoint, response)] (lines 148-182); [now] is
    [Date.now()].  Its [try] block cannot throw on a JSON value, so the
    [catch] branch is not modelled. *)
Definition analyzeResponse (t : tester) (endpoint : string) (data : value)
    (now : Z) : tester :=
  let pattern := extractResponsePattern data in
  let patterns1 :=
    match patterns t !! pattern with
    | Some _ => patterns t
    | None => <[pattern := 0]> (patterns t)
    end in
  let patterns2 :=
    match patterns1 !! pattern with
    | Some n => <[pattern := n + 1]> patterns1
    | None => patterns1
    end in
  let stored1 :=
    match resp_patterns t !! pattern with
    | Some _ => resp_patterns t
    | None => <[pattern := {| pd_count := 0; pd_examples := [] |}]>
                (resp_patterns t)
    end in
  let stored2 :=
    match stored1 !! pattern with
    | Some pd =>
        <[pattern :=
            {| pd_count := pd_count pd + 1;
               pd_examples :=
                 if (length (pd_examples pd) <? 5)%nat
                 then pd_examples pd
                      ++ [{| ex_endpoint := endpoint; ex_timestamp := now;
                             ex_data := data |}]
                 else pd_examples pd |}]> stored1
    | None => stored1
    end in
  {| requests := requests t; latencies := latencies t;
     patterns := patterns2;
     resp_successful := resp_successful t; resp_failed := resp_failed t;
     resp_patterns := stored2 |}.

Inductive completion : Type :=
  | Fulfilled
  | Rejected.

(** [handleSuccess(endpoint, response, latency)] (lines 92-115).
    [logging] is [config.responseLogging]; [logOk] tells whether
    [logResponse], which appends to a file, succeeds: when it does not,
    the [await] throws after the counters were updated and the rest is
    skipped. *)
Definition handleSuccess (logging : bool) (t : tester) (endpoint : string)
    (data : value) (latency : Z) (logOk : bool) (now now' : Z)
    : tester * completion :=
  let counted :=
    {| requests :=
         {| total := total (requests t) + 1;
            successful := successful (requests t) + 1;
            failed := failed (requests t) |};
       latencies := latencies t ++ [latency];
       patterns := patterns t;
       resp_successful := resp_successful t; resp_failed := resp_failed t;
       resp_patterns := resp_patterns t |} in
  if logging && negb logOk then (counted, Rejected)
  else
    let analysed := analyzeResponse counted endpoint data now in
    let entry :=
      {| sr_timestamp := now'; sr_latency := latency; sr_data := data |} in
    ({| requests := requests analysed; latencies := latencies analysed;
        patterns := patterns analysed;
        resp_successful :=
          <[endpoint :=
              default [] (resp_successful analysed !! endpoint) ++ [entry]]>
            (resp_successful analysed);
        resp_failed := resp_failed analysed;
        resp_patterns := resp_patterns analysed |}, Fulfilled).

(** [handleError(endpoint, error, latency)] (lines 117-146). *)
Definition handleError (t : tester) (endpoint : string) (error : errorInfo)
    (latency : Z) (now : Z) : tester :=
  {| requests :=
       {| total := total (requests t) + 1;
          successful := successful (requests t);
          failed := failed (requests t) + 1 |};
     latencies := latencies t;
     patterns := patterns t;
     resp_successful := resp_successful t;
     resp_failed :=
       <[endpoint :=
           default [] (resp_failed t !! endpoint)
           ++ [{| se_timestamp := now; se_latency := latency;
                  se_error := error |}]]> (resp_failed t);
     resp_patterns := resp_patterns t |}.

(** What [axios] does with a request. *)
Inductive axiosResult : Type :=
  | Response (data : value)
  | Failure (error : errorInfo).

(** One call of [makeRequest(endpoint, options)] (lines 67-90) as seen from
    the tester: the outcome of [axios], the latency measured after it,
    whether logging the response succeeds and the error it throws
    otherwise, the latency measured in the [catch] branch, and the
    readings of [Date.now()]. *)
Record exchange := {
  x_endpoint : string;
  x_result : axiosResult;
  x_latency : Z;
  x_logOk : bool;
  x_logError : errorInfo;
  x_latency' : Z;
  x_now : Z;
  x_now' : Z
}.

Definition makeRequest (logging : bool) (t : tester) (x : exchange)
    : tester * completion :=
  match x_result x with
  | Response data =>
      match handleSuccess logging t (x_endpoint x) data (x_latency x)
                          (x_logOk x) (x_now x) (x_now' x) with
      | (t', Fulfilled) => (t', Fulfilled)
      | (t', Rejected) =>
          (handleError t' (x_endpoint x) (x_logError x) (x_latency' x)
                       (x_now' x), Rejected)
      end
  | Failure error =>
      (handleError t (x_endpoint x) error (x_latency x) (x_now x), Rejected)
  end.

Definition makeRequests (logging : bool) (t : tester) (xs : list exchange)
    : tester :=
  fold_left (fun t x => fst (makeRequest logging t x)) xs t.

(** ** Vocabulary *)

Definition responded (x : exchange) : bool :=
  match x_result x with Response _ => true | Failure _ => false end.

(** The response was received and its logging, if enabled, succeeded. *)
Definition analysed (logging : bool) (x : exchange) : bool :=
  responded x && negb (logging && negb (x_logOk x)).

(** The bodies, in order, of the analysed responses with fingerprint [p]. *)
Fixpoint bodiesWith (logging : bool) (p : string) (xs : list exchange)
    : list value :=
  match xs with
  | [] => []
  | x :: rest =>
      match x_result x with
      | Response data =>
          if analysed logging x && String.eqb (extractResponsePattern data) p
          then data :: bodiesWith logging p rest
          else bodiesWith logging p rest
      | Failure _ => bodiesWith logging p rest
      end
  end.

Definition count (f : exchange -> bool) (xs : list exchange) : Z :=
  Z.of_nat (length (List.filter f xs)).

(** ** Lookups after one step *)

Lemma analyzeResponse_patterns (t : tester) (e : string) (d : value)
    (now : Z) (p : string) :
  patterns (analyzeResponse t e d now) !! p =
  if String.eqb (extractResponsePattern d) p
  then Some (default 0 (patterns t !! p) + 1)
  else patterns t !! p.
Proof.
  unfold analyzeResponse; cbn [patterns].
  destruct (String.eqb_spec (extractResponsePattern d) p) as [->|Hne].
  - destruct (patterns t !! p) as [n|] eqn:E.
    + rewrite E, lookup_insert_eq. reflexivity.
    + rewrite !lookup_insert_eq. reflexivity.
  - destruct (patterns t !! extractResponsePattern d) as [n|] eqn:E.
    + rewrite E, lookup_insert_ne by exact Hne. reflexivity.
    + rewrite lookup_insert_eq, !lookup_insert_ne by exact Hne. reflexivity.
Qed.

Definition noPattern : patternData := {| pd_count := 0; pd_examples := [] |}.

Lemma analyzeResponse_stored (t : tester) (e : string) (d : value)
    (now : Z) (p : string) :
  resp_patterns (analyzeResponse t e d now) !! p =
  if String.eqb (extractResponsePattern d) p
  then
    let pd := default noPattern (resp_patterns t !! p) in
    Some {| pd_count := pd_count pd + 1;
            pd_examples :=
              if (length (pd_examples pd) <? 5)%nat
              then pd_examples pd
                   ++ [{| ex_endpoint := e; ex_timestamp := now;
                          ex_data := d |}]
              else pd_examples pd |}
  else resp_patterns t !! p.
Proof.
  unfold analyzeResponse; cbn [resp_patterns].
  destruct (String.eqb_spec (extractResponsePattern d) p) as [->|Hne].
  - destruct (resp_patterns t !! p) as [pd|] eqn:E.
    + rewrite E, lookup_insert_eq. reflexivity.
    + rewrite !lookup_insert_eq. reflexivity.
  - destruct (resp_patterns t !! extractResponsePattern d) as [pd|] eqn:E.
    + rewrite E, lookup_insert_ne by exact Hne. reflexivity.
    + rewrite lookup_insert_eq, !lookup_insert_ne by exact Hne. reflexivity.
Qed.

Lemma makeRequests_snoc (logging : bool) (t : tester) (xs : list exchange)
    (x : exchange) :
  makeRequests logging t (xs ++ [x]) =
  fst (makeRequest logging (makeRequests logging t xs) x).
Proof. unfold makeRequests. rewrite fold_left_app. reflexivity. Qed.

Lemma bodiesWith_app (logging : bool) (p : string) (xs ys : list exchange) :
  bodiesWith logging p (xs ++ ys) =
  bodiesWith logging p xs ++ bodiesWith logging p ys.
Proof.
  induction xs as [|x xs IH]; [reflexivity|].
  cbn [app bodiesWith]. rewrite IH.
  destruct (x_result x); [|reflexivity].
  destruct (analysed logging x && _); reflexivity.
Qed.

Lemma count_snoc (f : exchange -> bool) (xs : list exchange) (x : exchange) :
  count f (xs ++ [x]) = count f xs + (if f x then 1 else 0).
Proof.
  unfold count. rewrite List.filter_app, length_app. cbn [List.filter].
  destruct (f x); cbn [length]; lia.
Qed.

(** What one request shows of the fingerprint [p]. *)
Lemma makeRequest_pattern (logging : bool) (t : tester) (x : exchange)
    (p : string) :
  let t' := fst (makeRequest logging t x) in
  match bodiesWith logging p [x] with
  | [] =>
      patterns t' !! p = patterns t !! p /\
      resp_patterns t' !! p = resp_patterns t !! p
  | d :: _ =>
      bodiesWith logging p [x] = [d] /\
      patterns t' !! p = Some (default 0 (patterns t !! p) + 1) /\
      exists now,
        resp_patterns t' !! p =
        let pd := default noPattern (resp_patterns t !! p) in
        Some {| pd_count := pd_count pd + 1;
                pd_examples :=
                  if (length (pd_examples pd) <? 5)%nat
                  then pd_examples pd
                       ++ [{| ex_endpoint := x_endpoint x;
                              ex_timestamp := now; ex_data := d |}]
                  else pd_examples pd |}
  end.
Proof.
  intros t'; subst t'. unfold makeRequest, bodiesWith, analysed, responded.
  destruct (x_result x) as [d|err]; [|split; reflexivity].
  unfold handleSuccess.
  destruct (logging && negb (x_logOk x)); cbn [andb negb fst];
    [split; reflexivity|].
  cbn [patterns resp_patterns].
  rewrite analyzeResponse_patterns, analyzeResponse_stored.
  cbn [patterns resp_patterns].
  destruct (String.eqb (extractResponsePattern d) p).
  - split; [reflexivity|]. split; [reflexivity|].
    exists (x_now x). reflexivity.
  - split; reflexivity.
Qed.

(** The pattern tables after a run from the fresh state. *)
Definition patternInvariant (logging : bool) (xs : list exchange)
    (t : tester) (p : string) : Prop :=
  let bodies := bodiesWith logging p xs in
  match bodies with
  | [] => patterns t !! p = None /\ resp_patterns t !! p = None
  | _ :: _ =>
      patterns t !! p = Some (Z.of_nat (length bodies)) /\
      exists pd,
        resp_patterns t !! p = Some pd /\
        pd_count pd = Z.of_nat (length bodies) /\
        map ex_data (pd_examples pd) = firstn 5 bodies
  end.

Lemma firstn_snoc_short {A} (n : nat) (l : list A) (a : A) :
  (length l < n)%nat -> firstn n (l ++ [a]) = firstn n l ++ [a].
Proof.
  intros H. rewrite firstn_app.
  replace (n - length l)%nat with (S (n - length l - 1))%nat by lia.
  rewrite (firstn_all2 (n := n) l) by lia.
  cbn [firstn]. rewrite firstn_nil. reflexivity.
Qed.

Lemma firstn_snoc_full {A} (n : nat) (l : list A) (a : A) :
  (n <= length l)%nat -> firstn n (l ++ [a]) = firstn n l.
Proof.
  intros H. rewrite firstn_app.
  replace (n - length l)%nat with 0%nat by lia.
  cbn [firstn]. apply app_nil_r.
Qed.

Lemma pattern_tables (logging : bool) (xs : list exchange) (p : string) :
  patternInvariant logging xs (makeRequests logging setup xs) p.
Proof.
  induction xs as [|x xs IH] using rev_ind.
  - split; apply lookup_empty.
  - unfold patternInvariant in *.
    rewrite makeRequests_snoc, bodiesWith_app.
    pose proof (makeRequest_pattern logging (makeRequests logging setup xs)
                                    x p) as Hstep.
    cbv zeta in Hstep, IH.
    destruct (bodiesWith logging p [x]) as [|d rest].
    + destruct Hstep as [-> ->]. rewrite app_nil_r. exact IH.
    + destruct Hstep as (Hone & Hp & now & Hs). injection Hone as ->.
      rewrite Hp, Hs. clear Hp Hs.
      destruct (bodiesWith logging p xs) as [|b bs] eqn:Eb.
      * destruct IH as [-> ->]. cbn. split; [reflexivity|].
        eexists; split; [reflexivity|]. split; reflexivity.
      * destruct IH as (-> & pd & -> & Hc & Hex).
        cbn [default from_option id app].
        replace (b :: bs ++ [d]) with ((b :: bs) ++ [d]) by reflexivity.
        split; [f_equal; rewrite length_app; cbn [length]; lia|].
        eexists; split; [reflexivity|]. cbn [pd_count pd_examples].
        split; [rewrite Hc, length_app; cbn [length]; lia|].
        assert (Hlen : length (pd_examples pd)
                       = Nat.min 5 (length (b :: bs))).
        { rewrite <- (length_map ex_data), Hex. apply length_firstn. }
        destruct (Nat.ltb_spec (length (pd_examples pd)) 5) as [Hlt|Hge].
        -- rewrite map_app, Hex. cbn [map ex_data].
           rewrite firstn_snoc_short by lia. reflexivity.
        -- rewrite firstn_snoc_full by lia. exact Hex.
Qed.

(** The request totals after a run from the fresh state. *)
Lemma totals_after (logging : bool) (xs : list exchange) :
  let t := makeRequests logging setup xs in
  total (requests t) = Z.of_nat (length xs)
                       + count (fun x => responded x
                                         && negb (analysed logging x)) xs /\
  successful (requests t) = count responded xs /\
  failed (requests t) = count (fun x => negb (analysed logging x)) xs /\
  latencies t = map x_latency (List.filter responded xs).
Proof.
  induction xs as [|x xs IH] using rev_ind.
  - repeat split.
  - cbv zeta in *. rewrite makeRequests_snoc.
    destruct IH as (Ht & Hs & Hf & Hl).
    rewrite !count_snoc, List.filter_app, map_app, length_app.
    cbn [List.filter length].
    unfold makeRequest, handleSuccess, analysed, responded in *.
    destruct (x_result x) as [d|err].
    + destruct (logging && negb (x_logOk x));
        cbn [fst requests total successful failed latencies handleError
             analyzeResponse andb negb map app];
        rewrite ?Hl; repeat split; try lia; try reflexivity.
    + cbn [fst requests total successful failed latencies handleError
           andb negb map app].
      rewrite app_nil_r. repeat split; try lia; try assumption.
Qed.

(** ** Properties *)

(** X15 (handleSuccess, handleError, makeRequest): after any run of
    requests from the fresh state, [total] is [successful + failed];
    [successful] counts the requests that got a response and [latencies]
    holds their latencies in order; [failed] counts the requests that were
    not handled to the end.  A response whose logging fails is counted as
    successful and as failed, so [total] exceeds the number of requests by
    the number of such responses, and equals it when response logging is
    off. *)
Theorem request_totals (logging : bool) (xs : list exchange) :
  let t := makeRequests logging setup xs in
  let logFailed x := responded x && negb (analysed logging x) in
  total (requests t) = successful (requests t) + failed (requests t) /\
  successful (requests t) = count responded xs /\
  latencies t = map x_latency (List.filter responded xs) /\
  failed (requests t) = count (fun x => negb (analysed logging x)) xs /\
  total (requests t) = Z.of_nat (length xs) + count logFailed xs /\
  (logging = false -> total (requests t) = Z.of_nat (length xs)).
Proof.
  intros t logFailed.
  destruct (totals_after logging xs) as (Ht & Hs & Hf & Hl).
  fold t in Ht, Hs, Hf, Hl.
  assert (Hsplit : forall ys,
            Z.of_nat (length ys) + count logFailed ys =
            count responded ys
            + count (fun x => negb (analysed logging x)) ys).
  { induction ys as [|y ys IH]; [reflexivity|].
    unfold count, logFailed, analysed in *. cbn [List.filter length].
    destruct (responded y), (logging && negb (x_logOk y));
      cbn [andb negb length]; lia. }
  repeat split; try assumption.
  - rewrite Ht, Hs, Hf. apply Hsplit.
  - intros ->. rewrite Ht.
    assert (Hzero : forall ys,
              count (fun x => responded x && negb (analysed false x)) ys
              = 0).
    { induction ys as [|y ys IH]; [reflexivity|].
      unfold count, analysed in *. cbn [List.filter andb negb].
      destruct (responded y); cbn [andb negb]; exact IH. }
    subst logFailed. rewrite Hzero. lia.
Qed.

(** X16 (analyzeResponse): after any run of requests from the fresh state
    and for every fingerprint, the counter in [metrics.patterns] is the
    number of analysed responses with that fingerprint, the entry is
    absent exactly when there is none, [responses.patterns] holds the same
    count, and its examples are the first five of those responses, in
    order. *)
Theorem pattern_counts (logging : bool) (xs : list exchange) (p : string) :
  let t := makeRequests logging setup xs in
  let bodies := bodiesWith logging p xs in
  default 0 (patterns t !! p) = Z.of_nat (length bodies) /\
  (patterns t !! p = None <-> bodies = []) /\
  pd_count <$> resp_patterns t !! p = patterns t !! p /\
  map ex_data (default [] (pd_examples <$> resp_patterns t !! p))
  = firstn 5 bodies.
Proof.
  intros t bodies.
  pose proof (pattern_tables logging xs p) as H.
  unfold patternInvariant in H. cbv zeta in H. fold t bodies in H.
  destruct bodies as [|b bs].
  - destruct H as [-> ->]. repeat split; reflexivity.
  - destruct H as (-> & pd & -> & Hc & Hex).
    cbn [default from_option id fmap option_fmap option_map].
    repeat split; try discriminate.
    + rewrite Hc. reflexivity.
    + exact Hex.
Qed.

End CoreTester.

(* ===================================================================== *)
(** * Retrying with backoff *)
(* ===================================================================== *)

Module Utils.

Local Open Scope Q_scope.

(** What one call of [operation()] does once awaited. *)
Inductive attempt (A E : Type) : Type :=
  | Succeeds (a : A)
  | Fails (e : E).

(** How [retryWithBackoff] ends: it returns the value of [operation], it
    throws, or it falls out of the loop and returns [undefined]. *)
Inductive outcome (A E : Type) : Type :=
  | Returned (a : A)
  | Threw (e : E)
  | ReturnedUndefined.

Arguments Succeeds {A E} a.
Arguments Fails {A E} e.
Arguments Returned {A E} a.
Arguments Threw {A E} e.
Arguments ReturnedUndefined {A E}.

(** What the function does that can be seen from outside: calls of
    [operation] and timers awaited. *)
Inductive step : Type :=
  | Call
  | Wait (delay : Q).

Definition Qltb (x y : Q) : bool :=
  match x ?= y with Lt => true | _ => false end.

Lemma Qltb_lt (x y : Q) : x < y -> Qltb x y = true.
Proof.
  intros H. unfold Qltb.
  destruct (x ?= y) eqn:Ec; Sampling.order_of_compare Ec;
    [lra | reflexivity | lra].
Qed.

Section Backoff.

Variables A E : Type.

(** The floating-point operations of the runtime. *)
Variables fadd fmul : Q -> Q -> Q.
Variable Math_pow : Q -> Z -> Q.

(** [operation i] is the result of the [i]-th call of [operation()] and
    [rand i] the [i]-th value of [Math.random()], both counted from 0. *)
Variable operation : nat -> attempt A E.
Variable rand : Sampling.RandomSource.

Variables retries baseDelay : Q.

(** [baseDelay * Math.pow(2, i) * (0.5 + Math.random() * 0.5)]; one value
    is drawn per wait, so the wait of iteration [i] uses the [i]-th. *)
Definition delayAt (i : nat) : Q :=
  fmul (fmul baseDelay (Math_pow 2 (Z.of_nat i)))
       (fadd (1 # 2) (fmul (rand i) (1 # 2))).

(** The [for] loop of [retryWithBackoff] (lines 805-813) from the
    iteration [i]; [fuel] bounds the number of iterations. *)
Fixpoint retryLoop (fuel i : nat) : option (outcome A E * list step) :=
  if Qltb (inject_Z (Z.of_nat i)) retries then
    match fuel with
    | O => None
    | S fuel' =>
        match operation i with
        | Succeeds a => Some (Returned a, [Call])
        | Fails e =>
            if Qeq_bool (inject_Z (Z.of_nat i)) (retries - 1)
            then Some (Threw e, [Call])
            else
              match retryLoop fuel' (S i) with
              | Some (o, trace) =>
                  Some (o, Call :: Wait (delayAt i) :: trace)
              | None => None
              end
        end
    end
  else Some (ReturnedUndefined, []).

(** [retryWithBackoff(operation, retries, baseDelay)] (lines 804-814).
    The loop runs while [i < retries], so the ceiling of [retries] bounds
    its iterations. *)
Definition retryWithBackoff : option (outcome A E * list step) :=
  retryLoop (Z.to_nat (Qceiling retries)) 0.

(** ** Vocabulary *)

Fixpoint calls (trace : list step) : nat :=
  match trace with
  | [] => 0
  | Call :: rest => S (calls rest)
  | Wait _ :: rest => calls rest
  end.

Fixpoint waits (trace : list step) : list Q :=
  match trace with
  | [] => []
  | Call :: rest => waits rest
  | Wait d :: rest => d :: waits rest
  end.

(** The first [k] calls of [operation] fail. *)
Definition failsBefore (k : nat) : Prop :=
  forall j, (j < k)%nat -> exists e, operation j = Fails e.

(** The number of iterations the loop allows. *)
Definition limit : nat := Z.to_nat (Qceiling retries).

(** ** The loop test and the last-iteration test *)

Lemma below_limit (i : nat) :
  Qltb (inject_Z (Z.of_nat i)) retries = true <-> (i < limit)%nat.
Proof.
  unfold Qltb, limit.
  pose proof (Qle_ceiling retries) as Hup.
  pose proof (Qceiling_lt retries) as Hlow.
  destruct (inject_Z (Z.of_nat i) ?= retries) eqn:Ec;
    Sampling.order_of_compare Ec.
  - split; [discriminate|]. intros Hlt. exfalso.
    assert (Hz : (Z.of_nat i <= Qceiling retries - 1)%Z) by lia.
    rewrite Zle_Qle in Hz. lra.
  - split; [intros _|reflexivity].
    assert (Hz : (Z.of_nat i < Qceiling retries)%Z).
    { rewrite Zlt_Qlt. lra. }
    lia.
  - split; [discriminate|]. intros Hlt. exfalso.
    assert (Hz : (Z.of_nat i <= Qceiling retries - 1)%Z) by lia.
    rewrite Zle_Qle in Hz. lra.
Qed.

Definition integral : bool := Qeq_bool retries (inject_Z (Qceiling retries)).

Lemma last_iteration (i : nat) :
  (i < limit)%nat ->
  Qeq_bool (inject_Z (Z.of_nat i)) (retries - 1)
  = integral && (S i =? limit)%nat.
Proof.
  intros Hlt. unfold integral, limit in *.
  destruct (Qeq_bool retries (inject_Z (Qceiling retries))) eqn:Ei.
  - apply Qeq_bool_eq in Ei. cbn [andb].
    destruct (Nat.eqb_spec (S i) (Z.to_nat (Qceiling retries))) as [He|Hne].
    + apply Qeq_bool_iff.
      assert (Hz : (Z.of_nat i + 1 = Qceiling retries)%Z) by lia.
      rewrite <- Hz, inject_Z_plus in Ei. change (inject_Z 1) with 1 in Ei.
      lra.
    + destruct (Qeq_bool _ (retries - 1)) eqn:Eq; [|reflexivity].
      apply Qeq_bool_eq in Eq. exfalso. apply Hne.
      assert (Hq : inject_Z (Z.of_nat i + 1) == inject_Z (Qceiling retries)).
      { rewrite inject_Z_plus. change (inject_Z 1) with 1.
        rewrite Eq, <- Ei. ring. }
      apply (proj1 (inject_Z_injective _ _)) in Hq. lia.
  - cbn [andb].
    destruct (Qeq_bool _ (retries - 1)) eqn:Eq; [|reflexivity].
    apply Qeq_bool_eq in Eq. exfalso.
    assert (Hq : retries == inject_Z (Z.of_nat i + 1)).
    { rewrite inject_Z_plus. change (inject_Z 1) with 1.
      rewrite Eq. ring. }
    assert (Hc : Qceiling retries = (Z.of_nat i + 1)%Z).
    { rewrite (Qceiling_comp _ _ Hq). apply Qceiling_Z. }
    rewrite Hc in Ei.
    apply Qeq_bool_neq in Ei. contradiction.
Qed.

Lemma retryLoop_unfold (fuel i : nat) :
  retryLoop fuel i =
  if Qltb (inject_Z (Z.of_nat i)) retries then
    match fuel with
    | O => None
    | S fuel' =>
        match operation i with
        | Succeeds a => Some (Returned a, [Call])
        | Fails e =>
            if Qeq_bool (inject_Z (Z.of_nat i)) (retries - 1)
            then Some (Threw e, [Call])
            else
              match retryLoop fuel' (S i) with
              | Some (o, trace) =>
                  Some (o, Call :: Wait (delayAt i) :: trace)
              | None => None
              end
        end
    end
  else Some (ReturnedUndefined, []).
Proof. destruct fuel; reflexivity. Qed.

Lemma past_limit (fuel i : nat) :
  (limit <= i)%nat -> retryLoop fuel i = Some (ReturnedUndefined, []).
Proof.
  intros H. rewrite retryLoop_unfold.
  destruct (Qltb _ retries) eqn:Eb; [|reflexivity].
  apply below_limit in Eb. lia.
Qed.

Lemma within_limit (fuel i : nat) :
  (i < limit)%nat ->
  retryLoop (S fuel) i =
  match operation i with
  | Succeeds a => Some (Returned a, [Call])
  | Fails e =>
      if integral && (S i =? limit)%nat
      then Some (Threw e, [Call])
      else
        match retryLoop fuel (S i) with
        | Some (o, trace) => Some (o, Call :: Wait (delayAt i) :: trace)
        | None => None
        end
  end.
Proof.
  intros H. rewrite retryLoop_unfold.
  rewrite (proj2 (below_limit i) H), (last_iteration i H). reflexivity.
Qed.

(** The loop ends whenever the fuel covers the iterations left. *)
Lemma retryLoop_total (fuel i : nat) :
  (limit <= i + fuel)%nat -> exists r, retryLoop fuel i = Some r.
Proof.
  revert i; induction fuel as [|fuel IH]; intros i H.
  - rewrite past_limit by lia. eauto.
  - destruct (Nat.lt_ge_cases i limit) as [Hlt|Hge];
      [|rewrite past_limit by lia; eauto].
    rewrite within_limit by exact Hlt.
    destruct (operation i) as [a|e]; [eauto|].
    destruct (integral && _); [eauto|].
    destruct (IH (S i)) as [[o tr] ->]; [lia|]. eauto.
Qed.

Lemma retryLoop_calls (fuel i : nat) (o : outcome A E) (trace : list step) :
  retryLoop fuel i = Some (o, trace) ->
  (calls trace <= limit - i)%nat /\
  (length (waits trace) <= calls trace)%nat /\
  (o = ReturnedUndefined -> length (waits trace) = calls trace) /\
  (o <> ReturnedUndefined -> S (length (waits trace)) = calls trace).
Proof.
  revert i o trace; induction fuel as [|fuel IH]; intros i o trace H.
  - rewrite retryLoop_unfold in H.
    destruct (Qltb _ retries); [discriminate|].
    injection H as <- <-. cbn. repeat split; try lia; congruence.
  - destruct (Nat.lt_ge_cases i limit) as [Hlt|Hge].
    + rewrite within_limit in H by exact Hlt.
      destruct (operation i) as [a|e].
      * injection H as <- <-. cbn. repeat split; try lia; congruence.
      * destruct (integral && _).
        -- injection H as <- <-. cbn. repeat split; try lia; congruence.
        -- destruct (retryLoop fuel (S i)) as [[o' tr]|] eqn:Hrec;
             [|discriminate].
           injection H as <- <-.
           destruct (IH _ _ _ Hrec) as (H1 & H2 & H3 & H4).
           cbn [calls waits length].
           repeat split; try lia.
           ++ intros Ho. rewrite (H3 Ho). reflexivity.
           ++ intros Ho. rewrite <- (H4 Ho). reflexivity.
    + rewrite past_limit in H by exact Hge.
      injection H as <- <-. cbn. repeat split; try lia; congruence.
Qed.

(** The steps of [d] failed iterations from [i] on. *)
Definition failedRounds (i d : nat) : list step :=
  flat_map (fun j => [Call; Wait (delayAt j)]) (seq i d).

Lemma calls_failedRounds (i d : nat) (rest : list step) :
  calls (failedRounds i d ++ rest) = (d + calls rest)%nat.
Proof.
  revert i; induction d as [|d IH]; intros i; [reflexivity|].
  unfold failedRounds in *. cbn [seq flat_map app calls].
  rewrite IH. reflexivity.
Qed.

Lemma waits_failedRounds (i d : nat) (rest : list step) :
  waits (failedRounds i d ++ rest) = map delayAt (seq i d) ++ waits rest.
Proof.
  revert i; induction d as [|d IH]; intros i; [reflexivity|].
  unfold failedRounds in *. cbn [seq flat_map app waits map].
  rewrite IH. reflexivity.
Qed.

Lemma retryLoop_success (d i fuel : nat) (a : A) :
  (d < fuel)%nat -> (i + d < limit)%nat ->
  (forall j, (i <= j < i + d)%nat -> exists e, operation j = Fails e) ->
  operation (i + d) = Succeeds a ->
  retryLoop fuel i = Some (Returned a, failedRounds i d ++ [Call]).
Proof.
  revert i fuel; induction d as [|d IH]; intros i fuel Hf Hl Hfail Hok;
    (destruct fuel as [|fuel]; [lia|]); rewrite within_limit by lia.
  - rewrite Nat.add_0_r in Hok. rewrite Hok. reflexivity.
  - destruct (Hfail i) as [e ->]; [lia|].
    destruct (Nat.eqb_spec (S i) limit) as [He|_]; [lia|].
    rewrite andb_false_r.
    rewrite (IH (S i) fuel); try lia.
    + reflexivity.
    + intros j Hj. apply Hfail. lia.
    + rewrite <- Hok. f_equal. lia.
Qed.

Lemma retryLoop_exhausted (d i fuel : nat) :
  (i + d = limit)%nat -> (d <= fuel)%nat ->
  (forall j, (i <= j < limit)%nat -> exists e, operation j = Fails e) ->
  match d with
  | O => retryLoop fuel i = Some (ReturnedUndefined, [])
  | S d' =>
      if integral
      then exists e, operation (i + d') = Fails e /\
                     retryLoop fuel i
                     = Some (Threw e, failedRounds i d' ++ [Call])
      else retryLoop fuel i = Some (ReturnedUndefined, failedRounds i d)
  end.
Proof.
  revert i fuel; induction d as [|d IH]; intros i fuel Hl Hf Hfail.
  - apply past_limit. lia.
  - destruct fuel as [|fuel]; [lia|]. rewrite within_limit by lia.
    destruct (Hfail i) as [e He]; [lia|]. rewrite He.
    specialize (IH (S i) fuel ltac:(lia) ltac:(lia)
                   ltac:(intros j Hj; apply Hfail; lia)).
    destruct d as [|d].
    + replace (S i =? limit)%nat with true
        by (symmetry; apply Nat.eqb_eq; lia).
      rewrite andb_true_r. destruct integral.
      * exists e. rewrite Nat.add_0_r. split; [exact He|reflexivity].
      * rewrite IH. reflexivity.
    + replace (S i =? limit)%nat with false
        by (symmetry; apply Nat.eqb_neq; lia).
      rewrite andb_false_r. destruct integral.
      * destruct IH as (e' & He' & ->). exists e'.
        split; [rewrite <- He'; f_equal; lia|reflexivity].
      * rewrite IH. reflexivity.
Qed.

(** ** Properties *)

(** X17.  [retryWithBackoff] returns the value of the first call of
    [operation] that succeeds, provided it comes while [i < retries]: the [k] failed
    calls before it are each followed by one wait, and nothing is called
    or awaited after the success. *)
Theorem retry_returns_first_success (k : nat) (a : A) :
  inject_Z (Z.of_nat k) < retries ->
  failsBefore k ->
  operation k = Succeeds a ->
  retryWithBackoff = Some (Returned a, failedRounds 0 k ++ [Call]) /\
  calls (failedRounds 0 k ++ [Call]) = S k /\
  waits (failedRounds 0 k ++ [Call]) = map delayAt (seq 0 k).
Proof.
  intros Hk Hfail Hok.
  assert (Hlt : (k < limit)%nat).
  { apply below_limit, Qltb_lt, Hk. }
  split; [|split].
  - unfold retryWithBackoff. fold limit.
    apply retryLoop_success; try assumption; try lia.
    intros j Hj. apply Hfail. lia.
  - rewrite calls_failedRounds. cbn [calls]. lia.
  - rewrite waits_failedRounds. cbn [waits]. apply app_nil_r.
Qed.

(** X18.  When every call of [operation] fails and [retries] is positive,
    [retryWithBackoff] calls it [ceil(retries)] times.  For a whole number
    of retries it throws the error of the last call, without waiting after
    it; otherwise the test [i === retries - 1] never holds, so it waits
    after every call, drops the last error and returns [undefined]. *)
Theorem retry_gives_up :
  0 < retries ->
  failsBefore limit ->
  (0 < limit)%nat /\
  if integral
  then exists e,
         operation (limit - 1) = Fails e /\
         retryWithBackoff
         = Some (Threw e, failedRounds 0 (limit - 1) ++ [Call]) /\
         calls (failedRounds 0 (limit - 1) ++ [Call]) = limit
  else retryWithBackoff = Some (ReturnedUndefined, failedRounds 0 limit) /\
       calls (failedRounds 0 limit) = limit /\
       length (waits (failedRounds 0 limit)) = limit.
Proof.
  intros Hpos Hfail.
  assert (Hlim : (0 < limit)%nat).
  { apply (below_limit 0), Qltb_lt. exact Hpos. }
  split; [exact Hlim|].
  pose proof (retryLoop_exhausted limit 0 limit eq_refl (Nat.le_refl _)
                (fun j Hj => Hfail j (proj2 Hj))) as H.
  destruct limit as [|d] eqn:El; [lia|].
  fold retryWithBackoff in H. unfold retryWithBackoff. fold limit.
  rewrite El. cbn [Nat.sub]. rewrite Nat.sub_0_r.
  destruct integral.
  - destruct H as (e & He & Hr). exists e. cbn [Nat.add] in He.
    repeat split; try assumption.
    rewrite calls_failedRounds. cbn [calls]. lia.
  - split; [exact H|].
    rewrite <- (app_nil_r (failedRounds 0 (S d))).
    rewrite calls_failedRounds, waits_failedRounds.
    cbn [calls waits]. rewrite app_nil_r, length_map, length_seq.
    split; lia.
Qed.

(** X19.  Whatever [operation] does, [retryWithBackoff] ends after at most
    [ceil(retries)] calls; it waits only after a failed call, and never
    after the call whose result or error it passes on.  With [retries] at
    most 0 it returns [undefined] without calling [operation]; it returns
    [undefined] in no case where a call succeeded. *)
Theorem retry_bounded :
  exists o trace,
    retryWithBackoff = Some (o, trace) /\
    (calls trace <= limit)%nat /\
    (o = ReturnedUndefined -> length (waits trace) = calls trace) /\
    (o <> ReturnedUndefined -> S (length (waits trace)) = calls trace) /\
    (retries <= 0 -> o = ReturnedUndefined /\ trace = []) /\
    (forall a, o = Returned a ->
               exists k, operation k = Succeeds a /\ calls trace = S k).
Proof.
  destruct (retryLoop_total limit 0) as [[o trace] Hrun]; [lia|].
  exists o, trace. fold retryWithBackoff in Hrun.
  destruct (retryLoop_calls _ _ _ _ Hrun) as (H1 & H2 & H3 & H4).
  split; [exact Hrun|]. split; [lia|]. split; [exact H3|].
  split; [exact H4|]. split.
  - intros Hle.
    assert (Hl : limit = 0%nat).
    { unfold limit.
      assert (Hc : (Qceiling retries <= 0)%Z).
      { pose proof (Qceiling_lt retries) as Hlow.
        assert (Hq : inject_Z (Qceiling retries - 1) < inject_Z 0)
          by (change (inject_Z 0) with 0; lra).
        rewrite <- Zlt_Qlt in Hq. lia. }
      lia. }
    unfold retryWithBackoff in Hrun. fold limit in Hrun.
    rewrite past_limit in Hrun by lia.
    injection Hrun as <- <-. split; reflexivity.
  - intros a ->. clear H1 H2 H3 H4.
    unfold retryWithBackoff in Hrun. fold limit in Hrun.
    assert (Hgen : forall fuel i tr,
              retryLoop fuel i = Some (Returned a, tr) ->
              exists k, operation k = Succeeds a /\
                        (i + calls tr = S k)%nat).
    { induction fuel as [|fuel IH]; intros i tr H.
      - rewrite retryLoop_unfold in H.
        destruct (Qltb _ retries); discriminate.
      - destruct (Nat.lt_ge_cases i limit) as [Hlt|Hge];
          [|rewrite past_limit in H by exact Hge; discriminate].
        rewrite within_limit in H by exact Hlt.
        destruct (operation i) as [a'|e] eqn:Eo.
        + injection H as -> <-. exists i. split; [exact Eo|cbn; lia].
        + destruct (integral && _); [discriminate|].
          destruct (retryLoop fuel (S i)) as [[o' tr']|] eqn:Hrec;
            [|discriminate].
          injection H as -> <-.
          destruct (IH _ _ Hrec) as (k & Hk & Hc).
          exists k. split; [exact Hk|cbn [calls]; lia]. }
    destruct (Hgen _ _ _ Hrun) as (k & Hk & Hc).
    exists k. split; [exact Hk|exact Hc].
Qed.

End Backoff.

(** ** A sample run *)

Definition Math_pow (base : Q) (exponent : Z) : Q := Qpower base exponent.

(** Two time-outs, then an answer. *)
Definition flaky (i : nat) : attempt nat string :=
  if (i <? 2)%nat then Fails "timeout"%string else Succeeds 7%nat.

Definition down (i : nat) : attempt nat string := Fails "refused"%string.

Definition halves : Sampling.RandomSource := fun _ => 1 # 2.

Lemma retry_returns_first_success_witness :
  inject_Z (Z.of_nat 2) < 3 /\
  failsBefore nat string flaky 2 /\
  flaky 2 = Succeeds 7%nat /\
  exists trace,
    retryWithBackoff nat string Qplus Qmult Math_pow flaky halves 3 1000
    = Some (Returned 7%nat, trace) /\
    calls trace = 3%nat /\
    map Qred (waits trace) = [750; 1500].
Proof.
  assert (H1 : inject_Z (Z.of_nat 2) < 3) by reflexivity.
  assert (H2 : failsBefore nat string flaky 2).
  { intros j Hj. destruct j as [|[|j]]; [eexists; reflexivity..|lia]. }
  assert (H3 : flaky 2 = Succeeds 7%nat) by reflexivity.
  split; [exact H1|]. split; [exact H2|]. split; [exact H3|].
  destruct (retry_returns_first_success nat string Qplus Qmult Math_pow
              flaky halves 3 1000 2 7%nat H1 H2 H3) as (Hr & Hc & Hw).
  eexists. split; [exact Hr|]. split; [exact Hc|].
  rewrite Hw. reflexivity.
Defined.

Lemma retry_gives_up_witness :
  0 < 3 /\
  failsBefore nat string down (limit 3) /\
  (exists trace,
     retryWithBackoff nat string Qplus Qmult Math_pow down halves 3 1000
     = Some (Threw "refused"%string, trace) /\
     map Qred (waits trace) = [750; 1500]) /\
  0 < 5 # 2 /\
  failsBefore nat string down (limit (5 # 2)) /\
  (exists trace,
     retryWithBackoff nat string Qplus Qmult Math_pow down halves (5 # 2) 1000
     = Some (ReturnedUndefined, trace) /\
     map Qred (waits trace) = [750; 1500; 3000]).
Proof.
  assert (H1 : 0 < 3) by reflexivity.
  assert (H2 : forall n, failsBefore nat string down n)
    by (intros n j _; eexists; reflexivity).
  assert (H3 : 0 < 5 # 2) by reflexivity.
  split; [exact H1|]. split; [apply H2|]. split.
  - destruct (retry_gives_up nat string Qplus Qmult Math_pow down halves
                3 1000 H1 (H2 _)) as [_ (e & He & Hr & _)].
    injection He as <-.
    eexists. split; [exact Hr|]. reflexivity.
  - split; [exact H3|]. split; [apply H2|].
    destruct (retry_gives_up nat string Qplus Qmult Math_pow down halves
                (5 # 2) 1000 H3 (H2 _)) as [_ (Hr & _)].
    eexists. split; [exact Hr|]. reflexivity.
Defined.

End Utils.
